(** * gogoGPCR: the MatrixTable filtering pipeline of [src/matrixtables.py]

    The module under study is a set of short Python functions that
    configure and sequence calls into the Hail genomics engine.  The
    development below gives

    - a data model of the engine's [MatrixTable] (rows keyed by locus and
      alleles, columns keyed by the sample id [s], one entry per cell);
    - the engine operations the pipeline calls ([filter_rows],
      [filter_cols], [filter_entries], [annotate_rows], [union_rows],
      [anti_join_cols], [sample_cols], [split_multi_hts], [import_bed]),
      following the engine's documented behaviour, including its
      three-valued (missing-aware) logic;
    - the pipeline functions themselves, one definition per Python
      function, in the order and with the guards of the source;
    - the properties of the pipeline, stated over these definitions. *)

From Stdlib Require Import ZArith QArith Qround String Ascii.
From stdpp Require Import base option list strings gmap pretty.

(** ** Python exceptions and fallible results *)

Inductive exn : Type :=
  | AttributeError (msg : string)
  | TypeError (msg : string)
  | ValueError (msg : string)
  | KeyError (key : string)
  | ExpressionException (msg : string)
  | HailException (msg : string).

(** A computation either raises or returns. *)
Definition Result (A : Type) : Type := exn + A.

Definition raise {A} (e : exn) : Result A := inl e.
Definition ok {A} (a : A) : Result A := inr a.

#[global] Instance Result_ret : MRet Result := fun A a => inr a.
#[global] Instance Result_bind : MBind Result :=
  fun A B f m => match m with inl e => inl e | inr a => f a end.
#[global] Instance Result_fmap : FMap Result :=
  fun A B f m => match m with inl e => inl e | inr a => inr (f a) end.

(** ** Data model *)

Record Locus := { contig : string; position : Z }.

(** A genotype call: its ploidy is the number of allele indices. *)
Record Call := { phased : bool; call_alleles : list nat }.

(** Entry fields; each may be missing.  [DP] and [GQ] are the integer
    fields of the call-set format. *)
Record Entry := { GT : option Call; DP : option Z; GQ : option Z }.

(** The [variant_qc] row struct, reduced to the fields the pipeline reads. *)
Record VariantQC := {
  p_value_hwe : option Q;
  gq_stats_mean : option Q;
  n_non_ref : option Z
}.

(** What [compute_entry_filter_stats] attaches (the derived float ratio
    [fraction_filtered] is not carried). *)
Record EntryStats := { n_filtered : nat; n_remaining : nat }.

(** A row: its key, its annotations (a missing value is [None]) and its
    entries, one slot per column; a filtered entry is [None]. *)
Record Row := {
  locus : Locus;
  alleles : list string;
  variant_qc : option VariantQC;
  a_index : option Z;
  was_split : option bool;
  varid : option string;
  entry_stats_row : option EntryStats;
  entries : list (option Entry)
}.

Record Col := { s : string; entry_stats_col : option EntryStats }.

(** A MatrixTable: the names of its non-key row fields (its row schema),
    its columns and its rows.  The list of rows stands for a collection
    keyed by (locus, alleles); the engine's key order is not modelled. *)
Record MatrixTable := {
  row_fields : list string;
  cols : list Col;
  rows : list Row
}.

#[global] Instance Locus_eq_dec : EqDecision Locus.
Proof. solve_decision. Defined.

Definition set_rows (mt : MatrixTable) (rs : list Row) : MatrixTable :=
  {| row_fields := row_fields mt; cols := cols mt; rows := rs |}.

Definition set_entries (r : Row) (es : list (option Entry)) : Row :=
  {| locus := locus r; alleles := alleles r; variant_qc := variant_qc r;
     a_index := a_index r; was_split := was_split r; varid := varid r;
     entry_stats_row := entry_stats_row r; entries := es |}.

(** The entry of row [i], column [j], if the cell exists and is not filtered. *)
Definition entry_at (mt : MatrixTable) (i j : nat) : option Entry :=
  r ← rows mt !! i; mjoin (entries r !! j).

(** ** Engine expressions: missing-aware logic and comparisons *)

Module hl.

(** [a & b]: false wins over missing. *)
Definition and (a b : option bool) : option bool :=
  match a, b with
  | Some false, _ | _, Some false => Some false
  | Some true, Some true => Some true
  | _, _ => None
  end.

(** [a | b]: true wins over missing. *)
Definition or (a b : option bool) : option bool :=
  match a, b with
  | Some true, _ | _, Some true => Some true
  | Some false, Some false => Some false
  | _, _ => None
  end.

Definition Qltb (x y : Q) : bool := negb (Qle_bool y x).

(** [x > y], [x >= y], [x < y] for an int32 field against a number. *)
Definition gt (x : option Z) (y : Q) : option bool :=
  (fun x => Qltb y (inject_Z x)) <$> x.
Definition ge (x : option Z) (y : Q) : option bool :=
  (fun x => Qle_bool y (inject_Z x)) <$> x.

(** [x < y] for a float field against a number. *)
Definition flt (x : option Q) (y : Q) : option bool :=
  (fun x => Qltb x y) <$> x.

Definition ploidy (c : Call) : nat := length (call_alleles c).
Definition is_haploid (c : option Call) : option bool :=
  (fun c => bool_decide (ploidy c = 1)) <$> c.
Definition is_diploid (c : option Call) : option bool :=
  (fun c => bool_decide (ploidy c = 2)) <$> c.

(** A Python number becomes an expression; [None] is refused by the
    argument check of the comparison, a [TypeError].  (Numbers are taken
    within the range of the engine's 64-bit types.) *)
Definition to_expr (x : option Q) : Result Q :=
  match x with
  | Some q => ok q
  | None => raise (TypeError "expected expression of numeric type, found NoneType: None")
  end.

End hl.

(** Python's [x // y] on numbers; [None // y] is a [TypeError]. *)
Definition py_floordiv (x : option Q) (y : Q) : Result Q :=
  match x with
  | Some q => ok (inject_Z (Qfloor (q / y)))
  | None => raise (TypeError "unsupported operand type(s) for //: 'NoneType' and 'int'")
  end.

(** ** Engine operations on a MatrixTable *)

(** [stays keep v]: a row, column or entry stays when the predicate is
    defined and agrees with [keep]; a missing predicate removes it. *)
Definition stays (keep : bool) (v : option bool) : bool :=
  match v with
  | Some b => if keep then b else negb b
  | None => false
  end.

Definition filter_entries (pred : Entry -> option bool) (keep : bool)
    (mt : MatrixTable) : MatrixTable :=
  set_rows mt
    ((fun r => set_entries r
        ((fun oe => e ← oe; if stays keep (pred e) then Some e else None)
           <$> entries r))
       <$> rows mt).

Definition count_filtered (es : list (option Entry)) : nat :=
  length (filter (fun oe => oe = None) es).
Definition count_remaining (es : list (option Entry)) : nat :=
  length (filter (fun oe => is_Some oe) es).

Definition entry_stats (es : list (option Entry)) : EntryStats :=
  {| n_filtered := count_filtered es; n_remaining := count_remaining es |}.

(** Insert a field name in a schema: an existing field keeps its place. *)
Definition add_field (f : string) (fs : list string) : list string :=
  if decide (f ∈ fs) then fs else fs ++ [f].

Definition set_entry_stats_row (r : Row) : Row :=
  {| locus := locus r; alleles := alleles r; variant_qc := variant_qc r;
     a_index := a_index r; was_split := was_split r; varid := varid r;
     entry_stats_row := Some (entry_stats (entries r)); entries := entries r |}.

Definition column_entries (mt : MatrixTable) (j : nat) : list (option Entry) :=
  (fun r => mjoin (entries r !! j)) <$> rows mt.

(** [compute_entry_filter_stats]: per-row and per-column counts of
    filtered and remaining entries, as new annotations. *)
Definition compute_entry_filter_stats (mt : MatrixTable) : MatrixTable :=
  {| row_fields := add_field "entry_stats_row" (row_fields mt);
     cols := imap (fun j c => {| s := s c;
                    entry_stats_col := Some (entry_stats (column_entries mt j)) |})
                  (cols mt);
     rows := set_entry_stats_row <$> rows mt |}.

(** ** [genotype_filter_mt] *)

Definition genotype_filter_mt (mt : MatrixTable) (min_DP min_GQ : option Q)
    (log_entries_filtered : bool) : Result MatrixTable :=
  half ← py_floordiv min_DP 2;
  gq ← hl.to_expr min_GQ;
  dp ← hl.to_expr min_DP;
  let mt := filter_entries
    (fun e =>
       hl.or
         (hl.and (hl.and (hl.is_haploid (GT e)) (hl.gt (DP e) half)) (hl.ge (GQ e) gq))
         (hl.and (hl.and (hl.is_diploid (GT e)) (hl.gt (DP e) dp)) (hl.ge (GQ e) gq)))
    true mt in
  let mt := if log_entries_filtered then compute_entry_filter_stats mt else mt in
  ok mt.

(** ** Row and column operations of the engine *)

Definition filter_rows (pred : Row -> option bool) (keep : bool)
    (mt : MatrixTable) : MatrixTable :=
  set_rows mt (filter (fun r => stays keep (pred r)) (rows mt)).

(** Keep the elements of [xs] whose flag in [mask] is set. *)
Fixpoint select {A} (mask : list bool) (xs : list A) : list A :=
  match mask, xs with
  | b :: mask', x :: xs' => if b then x :: select mask' xs' else select mask' xs'
  | _, _ => []
  end.

(** Removing columns removes their slot from every row. *)
Definition filter_cols_mask (mask : list (option bool)) (keep : bool)
    (mt : MatrixTable) : MatrixTable :=
  let m := stays keep <$> mask in
  {| row_fields := row_fields mt;
     cols := select m (cols mt);
     rows := (fun r => set_entries r (select m (entries r))) <$> rows mt |}.

Definition filter_cols (pred : Col -> option bool) (keep : bool)
    (mt : MatrixTable) : MatrixTable :=
  filter_cols_mask (pred <$> cols mt) keep mt.

(** [anti_join_cols]: drop the columns whose key is a key of the table.
    A record of the table whose key is missing ([None]) matches no column. *)
Definition anti_join_cols (keys : list (option string)) (mt : MatrixTable)
    : MatrixTable :=
  filter_cols (fun c => Some (bool_decide (Some (s c) ∈ keys))) false mt.

(** [annotate_rows]: the named fields enter the schema, [f] sets them. *)
Definition annotate_rows (names : list string) (f : Row -> Row)
    (mt : MatrixTable) : MatrixTable :=
  {| row_fields := foldl (fun fs n => add_field n fs) (row_fields mt) names;
     cols := cols mt;
     rows := f <$> rows mt |}.

(** Re-keying rows by the fields they are keyed by only re-sorts them. *)
Definition key_rows_by_locus_alleles (mt : MatrixTable) : MatrixTable := mt.

(** [union_rows]: both tables must have the same row schema and the same
    column keys; the rows are put together. *)
Definition union_rows (a b : MatrixTable) : Result MatrixTable :=
  if negb (bool_decide (row_fields a = row_fields b)) then
    raise (ValueError "'MatrixTable.union_rows' expects row types for all datasets to be the same")
  else if negb (bool_decide (s <$> cols a = s <$> cols b)) then
    raise (ValueError "'MatrixTable.union_rows' expects column keys for all datasets to be the same")
  else ok (set_rows a (rows a ++ rows b)).

(** Attribute access on a MatrixTable: a field that is not in the schema
    raises [AttributeError]. *)
Definition getattr (mt : MatrixTable) (field : string) : Result unit :=
  if bool_decide (field ∈ row_fields mt) then ok tt
  else raise (AttributeError ("MatrixTable instance has no field " +:+ field)).

(** Array indexing: out of range is a run-time error of the engine. *)
Definition array_index {A} (xs : list A) (i : nat) : Result A :=
  match xs !! i with
  | Some x => ok x
  | None => raise (HailException "array index out of bounds")
  end.

(** [hl.delimit]: join with a delimiter. *)
Fixpoint delimit (xs : list string) (d : string) : string :=
  match xs with
  | [] => ""
  | [x] => x
  | x :: xs' => x +:+ d +:+ delimit xs' d
  end.

(** [hl.str] of an integer: its decimal text. *)
Definition hl_str (z : Z) : string := pretty z.

(** ** Splitting multi-allelic rows ([hl.split_multi_hts]) *)

(** Number of leading positions, at most [bound], where two alleles agree. *)
Fixpoint shared (bound : nat) (xs ys : list ascii) : nat :=
  match bound, xs, ys with
  | S b, x :: xs', y :: ys' =>
      if decide (x = y) then S (shared b xs' ys') else 0
  | _, _, _ => 0
  end.

(** [hl.min_rep] on a (ref, alt) pair: trim the shared trailing bases,
    then the shared leading bases, never emptying an allele; the locus
    moves right by the number of leading bases trimmed. *)
Definition min_rep (l : Locus) (ref alt : string) : Locus * list string :=
  let r := list_ascii_of_string ref in
  let a := list_ascii_of_string alt in
  let min_length := length r `min` length a in
  let ne := shared (min_length - 1) (rev r) (rev a) in
  let ns := shared (min_length - ne - 1) r a in
  let cut (x : list ascii) :=
    string_of_list_ascii (take (length x - ne - ns) (drop ns x)) in
  ({| contig := contig l; position := (position l + Z.of_nat ns)%Z |},
   [cut r; cut a]).

(** [hl.downcode c i]: allele [i] becomes 1, every other allele 0; an
    unphased call is an unordered collection, written lowest first. *)
Definition downcode (c : Call) (i : nat) : Call :=
  let bits := (fun a => if decide (a = i) then 1 else 0) <$> call_alleles c in
  {| phased := phased c;
     call_alleles :=
       if phased c then bits
       else filter (fun b => b = 0) bits ++ filter (fun b => b ≠ 0) bits |}.

Definition split_entry (i : nat) (e : Entry) : Entry :=
  {| GT := (fun c => downcode c i) <$> GT e; DP := DP e; GQ := GQ e |}.

(** The alternate alleles a split keeps: every index from 1 on whose
    allele is not the star allele ([keep_star] is left at its default). *)
Definition kept_alleles (r : Row) : list nat :=
  filter (fun i => alleles r !! i ≠ Some "*") (seq 1 (length (alleles r) - 1)).

(** The (ref, alt_i) pair of a row in minimal representation. *)
Definition min_rep_at (r : Row) (i : nat) : Locus * list string :=
  min_rep (locus r) (default "" (alleles r !! 0)) (default "" (alleles r !! i)).

(** The row produced for alternate allele [i] of row [r]. *)
Definition new_row (r : Row) (i : nat) : Row :=
  let v := min_rep_at r i in
  {| locus := v.1; alleles := v.2; variant_qc := variant_qc r;
     a_index := Some (Z.of_nat i);
     was_split := Some (bool_decide (2 < length (alleles r)));
     varid := varid r; entry_stats_row := entry_stats_row r;
     entries := (fun oe : option Entry => split_entry i <$> oe) <$> entries r |}.

Definition stayed (r : Row) (i : nat) : Prop := (min_rep_at r i).1 = locus r.

#[global] Instance stayed_dec r i : Decision (stayed r i).
Proof. unfold stayed. apply _. Defined.

Definition split_schema (fs : list string) : list string :=
  add_field "was_split" (add_field "a_index" fs).

(** With [left_aligned] every kept allele must keep its locus, otherwise
    the engine raises; without it the rows that keep their locus and the
    rows that move are built apart and put together. *)
Definition split_multi_hts (mt : MatrixTable) (left_aligned : bool)
    : Result MatrixTable :=
  if left_aligned then
    rs ← mapM (fun r =>
            mapM (fun i =>
                    if decide (stayed r i) then ok (new_row r i)
                    else raise (HailException
                                  "Found non-left-aligned variant in split_multi"))
                 (kept_alleles r))
         (rows mt);
    ok {| row_fields := split_schema (row_fields mt); cols := cols mt;
          rows := concat rs |}
  else
    let left := rows mt ≫= (fun r =>
                  new_row r <$> filter (fun i => stayed r i) (kept_alleles r)) in
    let moved := rows mt ≫= (fun r =>
                  new_row r <$> filter (fun i => ¬ stayed r i) (kept_alleles r)) in
    union_rows
      {| row_fields := split_schema (row_fields mt); cols := cols mt; rows := left |}
      {| row_fields := split_schema (row_fields mt); cols := cols mt; rows := moved |}.

(** ** [smart_split_multi_mt] *)

Definition set_a_index_was_split (a : Z) (w : bool) (r : Row) : Row :=
  {| locus := locus r; alleles := alleles r; variant_qc := variant_qc r;
     a_index := Some a; was_split := Some w; varid := varid r;
     entry_stats_row := entry_stats_row r; entries := entries r |}.

Definition smart_split_multi_mt (mt : MatrixTable) (left_aligned : bool)
    : Result MatrixTable :=
  let mt := key_rows_by_locus_alleles mt in
  let bi := filter_rows (fun r => Some (bool_decide (length (alleles r) = 2))) true mt in
  let bi := annotate_rows ["a_index"; "was_split"] (set_a_index_was_split 1 false) bi in
  let multi := filter_rows (fun r => Some (bool_decide (2 < length (alleles r)))) true mt in
  split ← split_multi_hts multi left_aligned;
  union_rows split bi.

(** ** Functions that print

    [hard_variant_filter_mt] and [filter_no_carriers] write to standard
    output before they return or raise: their model returns the lines
    printed together with the result. *)

Definition Printed (A : Type) : Type := list string * Result A.

(** [try: mt.variant_qc / except AttributeError: print(msg)]: the probe's
    [AttributeError] is caught and [msg] printed; execution goes on. *)
Definition probe_variant_qc (mt : MatrixTable) (msg : string) : list string :=
  match getattr mt "variant_qc" with
  | inl (AttributeError _) => [msg]
  | _ => []
  end.

(** ** [hard_variant_filter_mt] *)

Definition hard_variant_filter_mt (mt : MatrixTable)
    (min_p_value_hwe min_GQ : option Q) : Printed MatrixTable :=
  (probe_variant_qc mt "hard_variant_filter requires variant_qc",
   mt ← match min_p_value_hwe with
        | Some p =>
            _ ← getattr mt "variant_qc";
            ok (filter_rows (fun r => hl.flt (variant_qc r ≫= p_value_hwe) p) false mt)
        | None => ok mt
        end;
   mt ← match min_GQ with
        | Some g =>
            _ ← getattr mt "variant_qc";
            ok (filter_rows (fun r => hl.flt (variant_qc r ≫= gq_stats_mean) g) false mt)
        | None => ok mt
        end;
   ok mt).

(** ** [filter_no_carriers] *)

Definition filter_no_carriers (mt : MatrixTable) : Printed MatrixTable :=
  (probe_variant_qc mt "filter_no_carriers requires variant_qc",
   _ ← getattr mt "variant_qc";
   ok (filter_rows
         (fun r => (fun n => bool_decide (n = 0%Z)) <$> (variant_qc r ≫= n_non_ref))
         false mt)).

(** ** [hard_sample_filter_mt] *)

(** The first tab-separated field of a line. *)
Fixpoint first_field (line : string) : string :=
  match line with
  | EmptyString => EmptyString
  | String c rest =>
      if decide (c = ascii_of_nat 9) then EmptyString else String c (first_field rest)
  end.

(** The number of tab-separated fields of a line. *)
Definition field_count (line : string) : nat :=
  S (length (filter (fun c => c = ascii_of_nat 9) (list_ascii_of_string line))).

(** The key of a record: its first field, missing when the field is the
    text [NA] (the engine's default missing value). *)
Definition key_f0 (line : string) : option string :=
  if decide (first_field line = "NA") then None else Some (first_field line).

(** One line of the file, read against the number of fields of the first
    line: a blank line and a line with another number of fields are
    errors of the engine. *)
Definition read_line (n : nat) (line : string) : Result (option string) :=
  if decide (line = "") then
    raise (HailException "blank line found in text table")
  else if decide (field_count line = n) then ok (key_f0 line)
  else raise (HailException "unexpected number of fields in line").

(** [hl.import_table(path, no_header=True, key="f0")] with every other
    argument at its default: the file is given by its lines.  An empty
    file is a [ValueError] (the engine's message goes on with the names
    of the files); otherwise the lines are read in order and the result
    is the key of each record. *)
Definition import_table_f0 (lines : list string) : Result (list (option string)) :=
  match lines with
  | [] => raise (ValueError "Invalid file: no lines remaining after filters")
  | first :: _ => mapM (read_line (field_count first)) lines
  end.

Definition startswith (x p : string) : bool := String.prefix p x.

Definition hard_sample_filter_mt (mt : MatrixTable) (samples_to_remove : list string)
    : Result MatrixTable :=
  ht ← import_table_f0 samples_to_remove;
  let mt := anti_join_cols ht mt in
  let mt := filter_cols (fun c => Some (startswith (s c) "-")) false mt in
  ok mt.

(** ** [interval_qc_mt] *)

(** A data line of a BED file: chromosome, 0-based start, exclusive end.
    Lines are taken to be well formed for the reference genome (the
    engine raises on the others). *)
Record BedLine := { chrom : string; chromStart : Z; chromEnd : Z }.

Definition tab : string := String (ascii_of_nat 9) EmptyString.

Definition bed_line_text (b : BedLine) : string :=
  chrom b +:+ tab +:+ pretty (chromStart b) +:+ tab +:+ pretty (chromEnd b).

(** The line filter [^(?!(chr<region>))]: the pattern matches a line that
    does not start with the text [chr<region>], and a matching line is
    removed from the file.  ([region] is a contig name, free of regular
    expression operators, so the group is a literal.) *)
Definition filter_regex_matches (region : string) (line : string) : bool :=
  negb (String.prefix ("chr" +:+ region) line).

(** [hl.import_bed(path, reference_genome, filter)]: the lines left by the
    filter, as intervals; when the filter leaves no line the import
    raises [ValueError], as for an empty file.  A BED line [c a b] is the
    1-based interval [c:a+1 .. c:b+1), end excluded. *)
Definition import_bed (lines : list BedLine) (region : string)
    : Result (list BedLine) :=
  match filter (fun b => ¬ filter_regex_matches region (bed_line_text b)) lines with
  | [] => raise (ValueError "Invalid file: no lines remaining after filters")
  | kept => ok kept
  end.

Definition interval_contains (b : BedLine) (l : Locus) : bool :=
  bool_decide (contig l = chrom b)
  && bool_decide (chromStart b + 1 ≤ position l)%Z
  && bool_decide (position l < chromEnd b + 1)%Z.

(** [interval_table[mt.locus]]: a record of an interval that contains the
    locus, if there is one. *)
Definition interval_lookup (table : list BedLine) (l : Locus) : option BedLine :=
  head (filter (fun b => interval_contains b l) table).

(** [mapping[key]] on a Python dict. *)
Definition dict_get (mapping : gmap string string) (key : string) : Result string :=
  match mapping !! key with
  | Some v => ok v
  | None => raise (KeyError key)
  end.

Definition interval_qc_mt (mt : MatrixTable) (mapping : gmap string string)
    (intervals : list BedLine) : Result MatrixTable :=
  region ← dict_get mapping "GRCh38_region";
  interval_table ← import_bed intervals region;
  let mt := filter_rows
    (fun r => Some (bool_decide (is_Some (interval_lookup interval_table (locus r)))))
    true mt in
  ok mt.

(** ** [add_varid] *)

Definition set_varid (r : Row) (v : string) : Row :=
  {| locus := locus r; alleles := alleles r; variant_qc := variant_qc r;
     a_index := a_index r; was_split := was_split r; varid := Some v;
     entry_stats_row := entry_stats_row r; entries := entries r |}.

(** The [varid] expression, evaluated on one row. *)
Definition varid_expr (r : Row) : Result string :=
  a0 ← array_index (alleles r) 0;
  a1 ← array_index (alleles r) 1;
  ok (delimit [contig (locus r); hl_str (position (locus r)); a0; a1] ":").

Definition add_varid (mt : MatrixTable) : Result MatrixTable :=
  rs ← mapM (fun r => set_varid r <$> varid_expr r) (rows mt);
  ok {| row_fields := add_field "varid" (row_fields mt);
        cols := cols mt; rows := rs |}.

(** ** [downsample_mt]

    The engine's random number generator is not part of the repository:
    it is a parameter of the model.  [Env] is the ambient state of the
    engine session (its global seed generator); [next_seed] draws a seed
    from it when a random function is called without one; [rand_bool p
    seed j] is the seeded draw for the column at index [j]. *)

Section Downsample.

Variable Env : Type.
Variable next_seed : Env -> Z * Env.
Variable rand_bool : Q -> Z -> nat -> bool.

(** [mt.sample_cols(p, seed)] is [mt.filter_cols(hl.rand_bool(p, seed))]
    after a range check on [p]. *)
Definition sample_cols (mt : MatrixTable) (p : Q) (seed : option Z)
    (env : Env) : Env * Result MatrixTable :=
  if negb (Qle_bool 0 p && Qle_bool p 1) then
    (env, raise (ValueError "Requires 'p' in [0,1]"))
  else
    let '(sd, env') := match seed with
                       | Some z => (z, env)
                       | None => next_seed env
                       end in
    (env', ok (filter_cols_mask
                 (imap (fun j _ => Some (rand_bool p sd j)) (cols mt)) true mt)).

Definition downsample_mt (mt : MatrixTable) (prob : option Q) (seed : option Z)
    (env : Env) : Env * Result MatrixTable :=
  match prob with
  | Some p => sample_cols mt p seed env
  | None => (env, ok mt)
  end.

End Downsample.

(** ** Specification-side definitions *)

(** The ploidy-aware rule as the specification words it, with exact
    division of the threshold by two. *)
Definition ploidy_rule (min_DP min_GQ : Q) (e : Entry) : Prop :=
  ∃ c d g, GT e = Some c ∧ DP e = Some d ∧ GQ e = Some g ∧
    ((hl.ploidy c = 1 ∧ (min_DP / 2 < inject_Z d)%Q ∧ (min_GQ <= inject_Z g)%Q)
     ∨ (hl.ploidy c = 2 ∧ (min_DP < inject_Z d)%Q ∧ (min_GQ <= inject_Z g)%Q)).

(** "One row per alternate allele": every multi-allelic input row has,
    for each of its alternate alleles, an output row marked as split
    that carries the allele's 1-based index. *)
Definition one_row_per_alternate_allele (mt out : MatrixTable) : Prop :=
  ∀ r, r ∈ rows mt → 2 < length (alleles r) →
  ∀ i, 1 ≤ i < length (alleles r) →
  ∃ r', r' ∈ rows out ∧ a_index r' = Some (Z.of_nat i) ∧ was_split r' = Some true.

(** The two row filters of [smart_split_multi_mt]. *)
Definition biallelic (rs : list Row) : list Row :=
  filter (λ r, length (alleles r) = 2) rs.
Definition multiallelic (rs : list Row) : list Row :=
  filter (λ r, 2 < length (alleles r)) rs.

(** The rows a split makes of a list of rows: for each row, one row per
    kept alternate allele. *)
Definition split_rows (rs : list Row) : list Row :=
  rs ≫= (λ r, new_row r <$> kept_alleles r).

(** The condition under which a split with [left_aligned] set goes
    through: no kept allele of a multi-allelic row moves its locus. *)
Definition left_aligned_rows (mt : MatrixTable) : Prop :=
  Forall (λ r, Forall (stayed r) (kept_alleles r)) (multiallelic (rows mt)).

#[global] Instance left_aligned_rows_dec mt : Decision (left_aligned_rows mt).
Proof. unfold left_aligned_rows. apply _. Defined.

(** A row as it is apart from its entries. *)
Definition row_header (r : Row) : Row := set_entries r [].

(** The variant id as the specification words it: contig, position,
    reference allele and alternate allele, joined by colons. *)
Definition colon_joined (r : Row) (ref alt : string) : string :=
  contig (locus r) +:+ ":" +:+ hl_str (position (locus r)) +:+ ":" +:+ ref
  +:+ ":" +:+ alt.

(** ** Fixtures *)

Definition hap (d g : Z) : Entry :=
  {| GT := Some {| phased := false; call_alleles := [1] |};
     DP := Some d; GQ := Some g |}.
Definition dip (a b : nat) (d g : Z) : Entry :=
  {| GT := Some {| phased := false; call_alleles := [a; b] |};
     DP := Some d; GQ := Some g |}.

Definition plain_row (c : string) (p : Z) (als : list string)
    (es : list (option Entry)) : Row :=
  {| locus := {| contig := c; position := p |}; alleles := als;
     variant_qc := None; a_index := None; was_split := None; varid := None;
     entry_stats_row := None; entries := es |}.

Definition sample (id : string) : Col := {| s := id; entry_stats_col := None |}.

(** Two samples; a biallelic row and a three-allele row without a star. *)
Definition mt_two_rows : MatrixTable :=
  {| row_fields := [];
     cols := [sample "S1"; sample "S2"];
     rows := [ plain_row "chr1" 100 ["A"; "G"] [Some (dip 0 1 30 40); Some (hap 12 40)];
               plain_row "chr1" 200 ["A"; "C"; "T"] [Some (dip 1 2 30 40); None] ] |}.

(** The same, with the star allele as second alternate allele. *)
Definition mt_star : MatrixTable :=
  {| row_fields := [];
     cols := [sample "S1"; sample "S2"];
     rows := [ plain_row "chr1" 100 ["A"; "G"] [Some (dip 0 1 30 40); Some (hap 12 40)];
               plain_row "chr1" 200 ["A"; "C"; "*"] [Some (dip 1 2 30 40); None] ] |}.

(** A row with a single allele next to a biallelic one. *)
Definition mt_short : MatrixTable :=
  {| row_fields := [];
     cols := [sample "S1"];
     rows := [ plain_row "chr1" 100 ["A"] [Some (hap 12 40)];
               plain_row "chr1" 300 ["A"; "G"] [Some (dip 0 1 30 40)] ] |}.

(** Columns S1, S2 and -S3. *)
Definition mt_three_samples : MatrixTable :=
  {| row_fields := [];
     cols := [sample "S1"; sample "S2"; sample "-S3"];
     rows := [ plain_row "chr1" 100 ["A"; "G"]
                 [Some (dip 0 1 30 40); Some (dip 0 0 25 50); Some (hap 12 40)] ] |}.

(** One row on chr10; the mapping names chromosome 1. *)
Definition mt_chr10 : MatrixTable :=
  {| row_fields := [];
     cols := [sample "S1"];
     rows := [ plain_row "chr10" 150 ["A"; "G"] [Some (dip 0 1 30 40)] ] |}.

Definition mapping_chr1 : gmap string string :=
  {[ "GRCh38_region" := "1"; "GRCh38_start" := "1000"; "GRCh38_end" := "2000" ]}.

Definition bed_chr10 : list BedLine :=
  [ {| chrom := "chr10"; chromStart := 100; chromEnd := 200 |} ].

(** ** [import_mt]

    The reading of call-set files, the parsing of an interval text and
    the key order of rows belong to the engine and are parameters of the
    model: [parse_locus_interval] turns the interval text into an
    interval or raises, [import_gvcfs] returns one table per file,
    restricted to the intervals given as partitions, or raises. *)

Section ImportStage.

Variable Interval : Type.
Variable parse_locus_interval : string -> Result Interval.
Variable import_gvcfs : list string -> list Interval -> Result (list MatrixTable).

(** The order in which the engine returns the rows of a union: by row
    key, an order of the reference genome that is not modelled. *)
Variable order_by_key : list Row -> list Row.

(** [MatrixTable.union_rows] on any number of datasets: no dataset is an
    error, a single one is returned as it is; otherwise every dataset
    must have the row schema of the first, then the column keys of the
    first, and the result has the rows of all of them in key order. *)
Definition union_rows_all (ds : list MatrixTable) : Result MatrixTable :=
  match ds with
  | [] => raise (ValueError "Expected at least one argument")
  | [d] => ok d
  | first :: rest =>
      if negb (forallb (fun d => bool_decide (row_fields first = row_fields d)) rest) then
        raise (ValueError "'MatrixTable.union_rows' expects row types for all datasets to be the same")
      else if negb (forallb (fun d => bool_decide (s <$> cols first = s <$> cols d)) rest) then
        raise (ValueError "'MatrixTable.union_rows' expects column keys for all datasets to be the same")
      else ok (set_rows first (order_by_key (rows first ++ concat (rows <$> rest))))
  end.

Definition import_mt (vcf_files : list string) (mapping : gmap string string)
    : Result MatrixTable :=
  r1 ← dict_get mapping "GRCh38_region";
  st ← dict_get mapping "GRCh38_start";
  r2 ← dict_get mapping "GRCh38_region";
  en ← dict_get mapping "GRCh38_end";
  iv ← parse_locus_interval
         ("[chr" +:+ r1 +:+ ":" +:+ st +:+ "-chr" +:+ r2 +:+ ":" +:+ en +:+ "]");
  let region := [iv] in
  mts ← import_gvcfs vcf_files region;
  if bool_decide (length mts = 1) then array_index mts 0
  else union_rows_all mts.

End ImportStage.

(** ** The phenotype notebook: [new_names]

    Column names are taken to be ASCII text. *)

(** [s.replace(old, new)] for a one-character [old]. *)
Fixpoint py_replace (old : ascii) (new : string) (x : string) : string :=
  match x with
  | EmptyString => EmptyString
  | String c rest =>
      if decide (c = old) then new +:+ py_replace old new rest
      else String c (py_replace old new rest)
  end.

(** [\d] on ASCII text. *)
Definition is_digit (c : ascii) : bool :=
  (48 <=? nat_of_ascii c) && (nat_of_ascii c <=? 57).

(** [$]: the end of the text, or just before a newline that ends it. *)
Definition at_end (x : string) : bool :=
  match x with
  | EmptyString => true
  | String c EmptyString => bool_decide (c = ascii_of_nat 10)
  | _ => false
  end.

(** [re.search("_\d$", x)] as a truth value. *)
Fixpoint search_underscore_digit_end (x : string) : bool :=
  match x with
  | EmptyString => false
  | String c rest =>
      (bool_decide (c = "_"%char)
       && match rest with
          | String d rest' => is_digit d && at_end rest'
          | EmptyString => false
          end)
      || search_underscore_digit_end rest
  end.

Definition new_names (x : string) : string :=
  let x := py_replace "i" "" (py_replace "p" "x" x) in
  if search_underscore_digit_end x then x +:+ "_0" else x +:+ "_0_0".

(** ** Further specification-side definitions and fixtures *)

(** Every row has one entry slot per column. *)
Definition aligned (mt : MatrixTable) : Prop :=
  Forall (λ r, length (entries r) = length (cols mt)) (rows mt).

#[global] Instance aligned_dec mt : Decision (aligned mt).
Proof. unfold aligned. apply _. Defined.

(** The columns [hard_sample_filter_mt] lets through, given the keys of
    the exclusion table. *)
Definition sample_kept (ht : list (option string)) (c : Col) : Prop :=
  (Some (s c) ∉ ht) ∧ ¬ startswith (s c) "-".

(** The two column filters of [hard_sample_filter_mt], given the keys
    of the exclusion table. *)
Definition filter_samples (ht : list (option string)) (mt : MatrixTable)
    : MatrixTable :=
  filter_cols (fun c => Some (startswith (s c) "-")) false (anti_join_cols ht mt).

(** The keys a single-column file gives. *)
Definition listed_keys (lines : list string) : list (option string) :=
  (λ l, if decide (l = "NA") then None else Some l) <$> lines.

(** The exclusion file of the specification: one sample id per line, no
    blank line, no tab. *)
Definition single_column (lines : list string) : Prop :=
  Forall (λ l, l ≠ "" ∧ field_count l = 1) lines.

#[global] Instance single_column_dec lines : Decision (single_column lines).
Proof. unfold single_column. apply _. Defined.

(** "Every listed sample is removed": no column of the result has a
    sample id that is a line of the exclusion file. *)
Definition removes_listed_samples (lines : list string) (out : MatrixTable) : Prop :=
  ∀ c, c ∈ cols out → s c ∉ lines.

(** The columns a single-column exclusion file lets through: the sample
    id is not a line of the file, unless it is the text [NA], and does
    not start with a dash. *)
Definition listed_kept (lines : list string) (c : Col) : Prop :=
  ¬ (s c ∈ lines ∧ s c ≠ "NA") ∧ ¬ startswith (s c) "-".

#[global] Instance listed_kept_dec lines c : Decision (listed_kept lines c).
Proof. unfold listed_kept. apply _. Defined.

(** Columns NA and S2. *)
Definition mt_na : MatrixTable :=
  {| row_fields := [];
     cols := [sample "NA"; sample "S2"];
     rows := [ plain_row "chr1" 100 ["A"; "G"]
                 [Some (dip 0 1 30 40); Some (dip 0 0 25 50)] ] |}.

#[global] Instance sample_kept_dec ht c : Decision (sample_kept ht c).
Proof. unfold sample_kept. apply _. Defined.

(** An entry slot an entry filter leaves as it is. *)
Definition entry_fixed (pred : Entry → option bool) (keep : bool)
    (oe : option Entry) : Prop :=
  (e ← oe; if stays keep (pred e) then Some e else None) = oe.

(** The rows [hard_variant_filter_mt] lets through for a threshold on
    the HWE p-value, resp. on the mean genotype quality. *)
Definition hwe_at_least (p : Q) (r : Row) : Prop :=
  ∃ qc v, variant_qc r = Some qc ∧ p_value_hwe qc = Some v ∧ (p <= v)%Q.
Definition gq_mean_at_least (g : Q) (r : Row) : Prop :=
  ∃ qc v, variant_qc r = Some qc ∧ gq_stats_mean qc = Some v ∧ (g <= v)%Q.

(** The rows [filter_no_carriers] lets through. *)
Definition has_carrier (r : Row) : Prop :=
  ∃ qc n, variant_qc r = Some qc ∧ n_non_ref qc = Some n ∧ n ≠ 0%Z.

(** A text of decimal digits. *)
Definition all_digits (x : string) : Prop :=
  Forall (λ c, is_digit c = true) (list_ascii_of_string x).

Definition qc_row (c : string) (p : Z) (als : list string) (hwe gq : option Q)
    (n : option Z) (es : list (option Entry)) : Row :=
  {| locus := {| contig := c; position := p |}; alleles := als;
     variant_qc := Some {| p_value_hwe := hwe; gq_stats_mean := gq; n_non_ref := n |};
     a_index := None; was_split := None; varid := None;
     entry_stats_row := None; entries := es |}.

(** A table that carries [variant_qc]: a row passing every threshold, a
    row with a low HWE p-value and no carrier, a row whose statistics
    are missing. *)
Definition mt_qc : MatrixTable :=
  {| row_fields := ["variant_qc"];
     cols := [sample "S1"];
     rows := [ qc_row "chr1" 100 ["A"; "G"] (Some (1 # 2)%Q) (Some 50%Q) (Some 3%Z)
                 [Some (dip 0 1 30 40)];
               qc_row "chr1" 200 ["A"; "C"] (Some (1 # 100000)%Q) (Some 50%Q) (Some 0%Z)
                 [Some (dip 0 0 30 40)];
               qc_row "chr1" 300 ["A"; "T"] None None None [None] ] |}.

(** A three-allele row whose first alternate allele shares two leading
    bases with the reference: its minimal representation moves. *)
Definition mt_moved : MatrixTable :=
  {| row_fields := [];
     cols := [sample "S1"];
     rows := [ plain_row "chr1" 100 ["GCA"; "GCT"; "G"] [Some (dip 1 2 30 40)] ] |}.

(** * Properties *)

(** ** Checks of the model on the fixtures *)

Example min_rep_trims :
  min_rep {| contig := "chr1"; position := 10 |} "ACGT" "ACT"
  = ({| contig := "chr1"; position := 11 |}, ["CG"; "C"]).
Proof. reflexivity. Qed.

(** An odd threshold pins the haploid boundary: with min_DP = 25 the
    haploid call of depth 12 is filtered, with min_DP = 23 it is kept. *)
Example genotype_filter_odd_threshold :
  (λ mt, entry_at mt 0 1) <$> genotype_filter_mt mt_two_rows (Some 25%Q) (Some 40%Q) false
  = ok None
  ∧ (λ mt, entry_at mt 0 1) <$> genotype_filter_mt mt_two_rows (Some 23%Q) (Some 40%Q) false
    = ok (Some (hap 12 40)).
Proof. split; vm_compute; reflexivity. Qed.

Example genotype_filter_unset_threshold :
  genotype_filter_mt mt_two_rows None (Some 40%Q) false
  = raise (TypeError "unsupported operand type(s) for //: 'NoneType' and 'int'").
Proof. reflexivity. Qed.

Example smart_split_two_rows :
  (λ mt, (λ r, (alleles r, a_index r, was_split r)) <$> rows mt)
    <$> smart_split_multi_mt mt_two_rows false
  = ok [ (["A"; "C"], Some 1%Z, Some true);
         (["A"; "T"], Some 2%Z, Some true);
         (["A"; "G"], Some 1%Z, Some false) ].
Proof. vm_compute. reflexivity. Qed.

Example hard_sample_filter_three_samples :
  (λ mt, s <$> cols mt) <$> hard_sample_filter_mt mt_three_samples ["S1"]
  = ok ["S2"].
Proof. vm_compute. reflexivity. Qed.

Example hard_sample_filter_empty_file :
  hard_sample_filter_mt mt_three_samples []
  = raise (ValueError "Invalid file: no lines remaining after filters").
Proof. reflexivity. Qed.

Example add_varid_two_rows :
  (λ mt, varid <$> rows mt) <$> add_varid mt_two_rows
  = ok [Some "chr1:100:A:G"; Some "chr1:200:A:C"].
Proof. vm_compute. reflexivity. Qed.

Example add_varid_short_row :
  add_varid mt_short = raise (HailException "array index out of bounds").
Proof. vm_compute. reflexivity. Qed.

(** ** Comparisons on rationals *)

Lemma Qltb_lt (x y : Q) : hl.Qltb x y = true ↔ (x < y)%Q.
Proof.
  unfold hl.Qltb. rewrite negb_true_iff. split.
  - intros H. apply Qnot_le_lt. intros Hle.
    apply Qle_bool_iff in Hle. congruence.
  - intros H. destruct (Qle_bool y x) eqn:E; [|done].
    apply Qle_bool_iff in E. exfalso. by apply (Qlt_not_le x y).
Qed.

(** An integer exceeds a number exactly when it exceeds its floor: this is
    why floor division by two and exact halving decide the same calls. *)
Lemma floor_lt_inject (x : Q) (d : Z) :
  (inject_Z (Qfloor x) < inject_Z d)%Q ↔ (x < inject_Z d)%Q.
Proof.
  split.
  - intros H. rewrite <- Zlt_Qlt in H.
    apply Qlt_le_trans with (inject_Z (Qfloor x + 1)); [apply Qlt_floor|].
    rewrite <- Zle_Qle. lia.
  - intros H. apply Qle_lt_trans with x; [apply Qfloor_le | done].
Qed.

(** ** The entry filter *)

Lemma entry_at_filter_entries pred keep mt i j :
  entry_at (filter_entries pred keep mt) i j
  = e ← entry_at mt i j; if stays keep (pred e) then Some e else None.
Proof.
  unfold entry_at, filter_entries; simpl. rewrite list_lookup_fmap.
  destruct (rows mt !! i) as [r|]; simpl; [|done].
  rewrite list_lookup_fmap. by destruct (entries r !! j) as [[e|]|].
Qed.

Lemma entry_at_compute_entry_filter_stats mt i j :
  entry_at (compute_entry_filter_stats mt) i j = entry_at mt i j.
Proof.
  unfold entry_at, compute_entry_filter_stats; simpl. rewrite list_lookup_fmap.
  by destruct (rows mt !! i) as [r|].
Qed.

Lemma kleene_rule_defined (h a b h' a' : bool) :
  stays true
    (hl.or (hl.and (hl.and (Some h) (Some a)) (Some b))
           (hl.and (hl.and (Some h') (Some a')) (Some b))) = true
  ↔ (h = true ∧ a = true ∧ b = true) ∨ (h' = true ∧ a' = true ∧ b = true).
Proof. destruct h, a, b, h', a'; simpl; intuition discriminate. Qed.

Lemma kleene_rule_missing (h a b h' a' : option bool) :
  stays true (hl.or (hl.and (hl.and h a) b) (hl.and (hl.and h' a') b)) = true →
  is_Some a ∧ is_Some b ∨ is_Some a' ∧ is_Some b.
Proof.
  destruct h as [[]|], a as [[]|], b as [[]|], h' as [[]|], a' as [[]|];
    simpl; intros ?; try done; eauto.
Qed.

(** The filter expression of [genotype_filter_mt] holds of an entry
    exactly when the entry meets the ploidy-aware rule. *)
Lemma genotype_expr_rule (min_DP min_GQ : Q) (e : Entry) :
  stays true
    (hl.or
       (hl.and (hl.and (hl.is_haploid (GT e))
                       (hl.gt (DP e) (inject_Z (Qfloor (min_DP / 2)))))
               (hl.ge (GQ e) min_GQ))
       (hl.and (hl.and (hl.is_diploid (GT e)) (hl.gt (DP e) min_DP))
               (hl.ge (GQ e) min_GQ))) = true
  ↔ ploidy_rule min_DP min_GQ e.
Proof.
  unfold ploidy_rule, hl.is_haploid, hl.is_diploid, hl.gt, hl.ge.
  destruct e as [c d g]; cbn [GT DP GQ].
  destruct c as [c|], d as [d|], g as [g|];
    cbn [fmap option_fmap option_map];
    try (split; [intros H | intros (?&?&?&?&?&?&?); done]).
  - rewrite kleene_rule_defined, !bool_decide_eq_true, !Qltb_lt,
      floor_lt_inject, Qle_bool_iff.
    split.
    + intros H. exists c, d, g. done.
    + intros (c'&d'&g'&?&?&?&H). by simplify_eq.
  - apply kleene_rule_missing in H as [[_ [? ?]]|[_ [? ?]]]; done.
  - apply kleene_rule_missing in H as [[[? ?] _]|[[? ?] _]]; done.
  - apply kleene_rule_missing in H as [[[? ?] _]|[[? ?] _]]; done.
  - exfalso. by destruct (hl.Qltb _ _), (hl.Qltb _ _), (Qle_bool _ _).
  - exfalso. by destruct (hl.Qltb _ _), (hl.Qltb _ _).
  - exfalso. by destruct (Qle_bool _ _).
  - done.
Qed.

Lemma entry_at_genotype_filter mt (min_DP min_GQ : Q) log :
  ∃ out, genotype_filter_mt mt (Some min_DP) (Some min_GQ) log = ok out
  ∧ length (rows out) = length (rows mt)
  ∧ s <$> cols out = s <$> cols mt
  ∧ ∀ i j e, entry_at out i j = Some e
             ↔ entry_at mt i j = Some e ∧ ploidy_rule min_DP min_GQ e.
Proof.
  unfold genotype_filter_mt, py_floordiv, hl.to_expr; cbn [mbind Result_bind ok].
  eexists; split; [reflexivity|].
  split; [|split].
  - destruct log; cbn; by rewrite !length_fmap.
  - destruct log; cbn; [|done].
    rewrite fmap_imap. rewrite <- (imap_const s). by apply imap_ext.
  - intros i j e.
    assert (entry_at (if log then compute_entry_filter_stats
                        (filter_entries _ true mt) else filter_entries _ true mt) i j
            = entry_at (filter_entries _ true mt) i j) as ->
      by (destruct log; [apply entry_at_compute_entry_filter_stats | done]).
    rewrite entry_at_filter_entries.
    destruct (entry_at mt i j) as [e'|]; cbn [mbind option_bind];
      [|split; [done | by intros [? _]]].
    pose proof (genotype_expr_rule min_DP min_GQ e') as Hr.
    destruct (stays true _) eqn:E.
    + split; [intros [= ->]; split; [done | by apply Hr] | by intros [[= ->] _]].
    + split; [done|]. intros [[= ->] He]. by apply Hr in He.
Qed.

(** C1: with both thresholds set, [genotype_filter_mt] returns a table in
    which a cell holds an entry exactly when the input cell held that
    entry and the entry meets the ploidy-aware rule (haploid: DP above
    half of min_DP and GQ at least min_GQ; diploid: DP above min_DP and
    GQ at least min_GQ); no row or column is removed.  A haploid call
    whose DP is exactly half of min_DP is filtered, and a diploid call
    with DP = min_DP + 1 and GQ = min_GQ is retained. *)
Theorem genotype_filter_mt_ploidy_rule (mt : MatrixTable) (min_DP min_GQ : Q)
    (log_entries_filtered : bool) :
  ∃ out,
    genotype_filter_mt mt (Some min_DP) (Some min_GQ) log_entries_filtered = ok out
    ∧ length (rows out) = length (rows mt)
    ∧ s <$> cols out = s <$> cols mt
    ∧ (∀ i j e, entry_at out i j = Some e
                ↔ entry_at mt i j = Some e ∧ ploidy_rule min_DP min_GQ e)
    ∧ (∀ i j e c d,
         entry_at mt i j = Some e → GT e = Some c → hl.ploidy c = 1 →
         DP e = Some d → (inject_Z d == min_DP / 2)%Q →
         entry_at out i j = None)
    ∧ (∀ i j e c d g,
         entry_at mt i j = Some e → GT e = Some c → hl.ploidy c = 2 →
         DP e = Some d → GQ e = Some g →
         (inject_Z d == min_DP + 1)%Q → (inject_Z g == min_GQ)%Q →
         entry_at out i j = Some e).
Proof.
  destruct (entry_at_genotype_filter mt min_DP min_GQ log_entries_filtered)
    as (out & Hout & Hrows & Hcols & Hiff).
  exists out. split_and!; try done.
  - intros i j e c d He Hc Hp Hd Heq.
    destruct (entry_at out i j) as [e'|] eqn:E; [|done].
    apply Hiff in E as [E (c'&d'&g'&?&?&?&[(?&Hlt&?)|(?&?&?)])];
      simplify_eq; [|lia].
    rewrite Heq in Hlt. by apply Qlt_irrefl in Hlt.
  - intros i j e c d g He Hc Hp Hd Hg Heqd Heqg.
    apply Hiff. split; [done|]. exists c, d, g. split_and!; try done.
    right. split_and!; [done| |].
    + rewrite Heqd. rewrite <- (Qplus_0_r min_DP) at 1.
      apply Qplus_lt_r. done.
    + rewrite Heqg. apply Qle_refl.
Qed.

(** ** Fallible traversals *)

Lemma mapM_guard {A B} (P : A → Prop) `{!∀ x, Decision (P x)} (g : A → B)
    (e : exn) (l : list A) :
  mapM (M := Result) (λ x, if decide (P x) then ok (g x) else raise e) l
  = if decide (Forall P l) then ok (g <$> l) else raise e.
Proof.
  induction l as [|x l IH]; [done|].
  cbn [mapM]. rewrite IH. clear IH.
  destruct (decide (P x)) as [Hx|Hx]; cbn.
  - destruct (decide (Forall P l)) as [Hl|Hl]; cbn.
    + rewrite decide_True by (by constructor). done.
    + rewrite decide_False; [done|]. by inversion 1.
  - rewrite decide_False; [done|]. by inversion 1.
Qed.

Lemma mapM_Result_ext {A B} (f g : A → Result B) (l : list A) :
  (∀ x, f x = g x) → mapM f l = mapM g l.
Proof.
  intros Hfg. induction l as [|x l IH]; [done|].
  cbn [mapM]. by rewrite Hfg, IH.
Qed.

Lemma concat_fmap_bind {A B} (f : A → list B) (l : list A) :
  concat (f <$> l) = l ≫= f.
Proof. induction l as [|x l IH]; [done|]. cbn. by rewrite IH. Qed.

Lemma bind_filter_complement {A B C} (k : A → list B) (f : A → B → C)
    (P : A → B → Prop) `{!∀ x y, Decision (P x y)} (l : list A) :
  (l ≫= λ x, f x <$> filter (P x) (k x))
    ++ (l ≫= λ x, f x <$> filter (λ y, ¬ P x y) (k x))
  ≡ₚ l ≫= λ x, f x <$> k x.
Proof.
  induction l as [|x l IH]; [done|]. cbn.
  rewrite <- IH.
  rewrite <- (filter_app_complement (P x) (k x)) at 3.
  rewrite fmap_app. solve_Permutation.
Qed.

(** ** Union of rows *)

Lemma union_rows_same (a b : MatrixTable) :
  row_fields a = row_fields b → cols a = cols b →
  union_rows a b = ok (set_rows a (rows a ++ rows b)).
Proof.
  intros Hf Hc. unfold union_rows.
  rewrite bool_decide_eq_true_2 by done. cbn.
  rewrite bool_decide_eq_true_2 by (by rewrite Hc). done.
Qed.

(** ** The split *)

Lemma split_multi_hts_ok mt la out :
  split_multi_hts mt la = ok out →
  row_fields out = split_schema (row_fields mt) ∧ cols out = cols mt
  ∧ rows out ≡ₚ split_rows (rows mt).
Proof.
  unfold split_multi_hts, split_rows. destruct la.
  - rewrite (mapM_Result_ext _ (λ r, if decide (Forall (stayed r) (kept_alleles r))
                            then ok (new_row r <$> kept_alleles r)
                            else raise (HailException
                              "Found non-left-aligned variant in split_multi")))
      by (intros r; apply mapM_guard).
    rewrite (mapM_guard (λ r, Forall (stayed r) (kept_alleles r))).
    case_decide; [|done]. cbn. intros [= <-]. cbn.
    by rewrite concat_fmap_bind.
  - rewrite union_rows_same by done. intros [= <-]. cbn.
    split_and!; [done..|].
    apply (bind_filter_complement kept_alleles new_row stayed).
Qed.

Lemma split_multi_hts_total mt la :
  (la = true → Forall (λ r, Forall (stayed r) (kept_alleles r)) (rows mt)) →
  ∃ out, split_multi_hts mt la = ok out.
Proof.
  intros Hla. unfold split_multi_hts. destruct la.
  - rewrite (mapM_Result_ext _ (λ r, if decide (Forall (stayed r) (kept_alleles r))
                            then ok (new_row r <$> kept_alleles r)
                            else raise (HailException
                              "Found non-left-aligned variant in split_multi")))
      by (intros r; apply mapM_guard).
    rewrite (mapM_guard (λ r, Forall (stayed r) (kept_alleles r))).
    rewrite decide_True by auto. cbn. eauto.
  - rewrite union_rows_same by done. eauto.
Qed.

Lemma new_row_marks r i :
  a_index (new_row r i) = Some (Z.of_nat i)
  ∧ was_split (new_row r i) = Some (bool_decide (2 < length (alleles r)))
  ∧ length (alleles (new_row r i)) = 2.
Proof. done. Qed.

Lemma elem_of_kept_alleles r i :
  i ∈ kept_alleles r ↔ 1 ≤ i < length (alleles r) ∧ alleles r !! i ≠ Some "*".
Proof.
  unfold kept_alleles. rewrite list_elem_of_filter, elem_of_seq. intuition lia.
Qed.

Lemma elem_of_split_rows rs r' :
  r' ∈ split_rows rs ↔ ∃ r i, r ∈ rs ∧ i ∈ kept_alleles r ∧ r' = new_row r i.
Proof.
  unfold split_rows. rewrite list_elem_of_bind. split.
  - intros (r & Hr' & Hr). apply list_elem_of_fmap in Hr' as (i & -> & Hi). eauto.
  - intros (r & i & Hr & Hi & ->). exists r. split; [|done].
    apply list_elem_of_fmap. eauto.
Qed.

Lemma filter_rows_len_eq mt :
  rows (filter_rows (λ r, Some (bool_decide (length (alleles r) = 2))) true mt)
  = biallelic (rows mt).
Proof.
  cbn. apply list_filter_iff. intros r. cbn.
  by rewrite bool_decide_spec.
Qed.

Lemma filter_rows_len_gt mt :
  rows (filter_rows (λ r, Some (bool_decide (2 < length (alleles r)))) true mt)
  = multiallelic (rows mt).
Proof.
  cbn. apply list_filter_iff. intros r. cbn.
  by rewrite bool_decide_spec.
Qed.

(** What a successful [smart_split_multi_mt] returns. *)
Lemma smart_split_multi_mt_ok mt la out :
  smart_split_multi_mt mt la = ok out →
  row_fields out = split_schema (row_fields mt) ∧ cols out = cols mt
  ∧ ∃ sp, rows out = sp ++ (set_a_index_was_split 1 false <$> biallelic (rows mt))
          ∧ sp ≡ₚ split_rows (multiallelic (rows mt)).
Proof.
  unfold smart_split_multi_mt, key_rows_by_locus_alleles.
  destruct (split_multi_hts _ la) as [e|sp] eqn:Hsp; [done|].
  apply split_multi_hts_ok in Hsp as (Hf & Hc & Hr).
  cbn [mbind Result_bind].
  rewrite union_rows_same by (by rewrite ?Hf, ?Hc).
  intros [= <-]. cbn [rows cols row_fields set_rows].
  rewrite filter_rows_len_gt in Hr.
  split_and!; [done..|]. exists (rows sp). split; [|done].
  f_equal. exact (f_equal (fmap _) (filter_rows_len_eq mt)).
Qed.

Lemma smart_split_multi_mt_total mt la :
  (la = true → left_aligned_rows mt) →
  ∃ out, smart_split_multi_mt mt la = ok out.
Proof.
  intros Hla. unfold smart_split_multi_mt, key_rows_by_locus_alleles.
  destruct (split_multi_hts_total
              (filter_rows (λ r, Some (bool_decide (2 < length (alleles r)))) true mt)
              la) as [sp Hsp].
  { intros ->. rewrite filter_rows_len_gt. by apply Hla. }
  rewrite Hsp. cbn [mbind Result_bind ok].
  apply split_multi_hts_ok in Hsp as (Hf & Hc & Hr).
  rewrite union_rows_same by (by rewrite ?Hf, ?Hc). eauto.
Qed.

Lemma split_rows_was_split rs :
  Forall (λ r, was_split r = Some true) (split_rows (multiallelic rs)).
Proof.
  apply Forall_forall. intros r' Hr'.
  apply elem_of_split_rows in Hr' as (r & i & Hr & _ & ->).
  apply list_elem_of_filter in Hr as [Hlen _].
  cbn. by rewrite bool_decide_eq_true_2.
Qed.

Lemma filter_all {A} (P : A → Prop) `{!∀ x, Decision (P x)} (l : list A) :
  Forall P l → filter P l = l.
Proof.
  induction 1 as [|x l Hx Hl IH]; [done|].
  rewrite filter_cons_True by done. by rewrite IH.
Qed.

Lemma filter_none {A} (P : A → Prop) `{!∀ x, Decision (P x)} (l : list A) :
  Forall (λ x, ¬ P x) l → filter P l = [].
Proof.
  induction 1 as [|x l Hx Hl IH]; [done|].
  rewrite filter_cons_False by done. by rewrite IH.
Qed.

(** The rows of the result by their [was_split] mark. *)
Lemma smart_split_multi_mt_by_mark mt la out :
  smart_split_multi_mt mt la = ok out →
  filter (λ r, was_split r = Some false) (rows out)
    = set_a_index_was_split 1 false <$> biallelic (rows mt)
  ∧ filter (λ r, was_split r = Some true) (rows out)
    ≡ₚ split_rows (multiallelic (rows mt)).
Proof.
  intros Hout. apply smart_split_multi_mt_ok in Hout as (_ & _ & sp & -> & Hsp).
  pose proof (split_rows_was_split (rows mt)) as Hall.
  rewrite <- Hsp in Hall. rewrite !filter_app. split.
  - rewrite (filter_none _ sp), (filter_all _ (_ <$> _)); [done| |].
    + apply Forall_fmap, Forall_true. done.
    + eapply Forall_impl; [exact Hall|]. cbn. congruence.
  - rewrite (filter_all _ sp), (filter_none _ (_ <$> _)) by
      (try done; apply Forall_fmap, Forall_true; done).
    by rewrite app_nil_r.
Qed.

(** C2 (amended): when the split goes through (always without
    [left_aligned]; with it, when no kept allele moves its locus),
    [smart_split_multi_mt] returns a table whose rows marked
    [was_split = false] are exactly the biallelic input rows, unchanged
    but for [a_index = 1] and [was_split = false], and whose rows marked
    [was_split = true] are, for each input row with more than two
    alleles, one row per alternate allele other than the star allele,
    carrying the allele's 1-based index.  For a table of one 2-allele row
    and one 3-allele row without a star allele that is one row marked
    unsplit with index 1 and two rows marked split with indices 1 and 2. *)
Theorem smart_split_multi_mt_rows (mt : MatrixTable) (left_aligned : bool) :
  (left_aligned = true → left_aligned_rows mt) →
  ∃ out,
    smart_split_multi_mt mt left_aligned = ok out
    ∧ filter (λ r, was_split r = Some false) (rows out)
      = set_a_index_was_split 1 false <$> biallelic (rows mt)
    ∧ filter (λ r, was_split r = Some true) (rows out)
      ≡ₚ split_rows (multiallelic (rows mt))
    ∧ (∀ r i, i ∈ kept_alleles r
              ↔ 1 ≤ i < length (alleles r) ∧ alleles r !! i ≠ Some "*")
    ∧ (∀ r i, 2 < length (alleles r) →
              a_index (new_row r i) = Some (Z.of_nat i)
              ∧ was_split (new_row r i) = Some true)
    ∧ (∀ r2 r3 ref a1 a2,
         rows mt ≡ₚ [r2; r3] → length (alleles r2) = 2 →
         alleles r3 = [ref; a1; a2] → a1 ≠ "*" → a2 ≠ "*" →
         filter (λ r, was_split r = Some false) (rows out)
           = [set_a_index_was_split 1 false r2]
         ∧ a_index <$> filter (λ r, was_split r = Some true) (rows out)
           ≡ₚ [Some 1%Z; Some 2%Z]).
Proof.
  intros Hla.
  destruct (smart_split_multi_mt_total mt left_aligned Hla) as [out Hout].
  exists out. destruct (smart_split_multi_mt_by_mark _ _ _ Hout) as [Hbi Hmulti].
  split_and!; try done.
  - apply elem_of_kept_alleles.
  - intros r i Hlen. cbn. by rewrite bool_decide_eq_true_2.
  - intros r2 r3 ref a1 a2 Hrows Hr2 Hr3 Ha1 Ha2.
    rewrite Hbi, Hmulti. unfold biallelic, multiallelic, split_rows.
    assert (length (alleles r3) = 3) as Hlen3 by (by rewrite Hr3).
    split.
    + assert (filter (λ r, length (alleles r) = 2) (rows mt) ≡ₚ [r2]) as Hp.
      { rewrite Hrows. rewrite filter_cons_True by done.
        rewrite filter_cons_False by lia. done. }
      apply Permutation_singleton_r in Hp. by rewrite Hp.
    + rewrite Hrows. rewrite filter_cons_False by lia.
      rewrite filter_cons_True by lia.
      rewrite filter_nil. cbn [mbind list_bind app].
      unfold kept_alleles. rewrite Hr3.
      change (seq 1 (length [ref; a1; a2] - 1)) with [1; 2].
      rewrite filter_cons_True by (cbn; congruence).
      rewrite filter_cons_True by (cbn; congruence). done.
Qed.

(** The theorem at the two-row fixture, with [left_aligned] set. *)
Lemma smart_split_multi_mt_rows_witness :
  ∃ out,
    smart_split_multi_mt mt_two_rows true = ok out
    ∧ filter (λ r, was_split r = Some false) (rows out)
      = set_a_index_was_split 1 false <$> biallelic (rows mt_two_rows)
    ∧ filter (λ r, was_split r = Some true) (rows out)
      ≡ₚ split_rows (multiallelic (rows mt_two_rows))
    ∧ (∀ r i, i ∈ kept_alleles r
              ↔ 1 ≤ i < length (alleles r) ∧ alleles r !! i ≠ Some "*")
    ∧ (∀ r i, 2 < length (alleles r) →
              a_index (new_row r i) = Some (Z.of_nat i)
              ∧ was_split (new_row r i) = Some true)
    ∧ (∀ r2 r3 ref a1 a2,
         rows mt_two_rows ≡ₚ [r2; r3] → length (alleles r2) = 2 →
         alleles r3 = [ref; a1; a2] → a1 ≠ "*" → a2 ≠ "*" →
         filter (λ r, was_split r = Some false) (rows out)
           = [set_a_index_was_split 1 false r2]
         ∧ a_index <$> filter (λ r, was_split r = Some true) (rows out)
           ≡ₚ [Some 1%Z; Some 2%Z]).
Proof.
  apply (smart_split_multi_mt_rows mt_two_rows true).
  intros _. apply (bool_decide_unpack _). vm_compute. exact I.
Defined.

(** C2 as stated fails: with the star allele as second alternate allele
    of a three-allele row, the result has a single split row, and none
    for alternate allele 2. *)
Lemma smart_split_multi_mt_star_counterexample :
  ∃ out,
    smart_split_multi_mt mt_star false = ok out
    ∧ length (filter (λ r, was_split r = Some true) (rows out)) = 1
    ∧ ¬ one_row_per_alternate_allele mt_star out.
Proof.
  eexists. split; [vm_compute; reflexivity|]. split; [done|].
  intros H.
  destruct (H (plain_row "chr1" 200 ["A"; "C"; "*"] [Some (dip 1 2 30 40); None]))
    with (i := 2) as (r' & Hin & Ha & _).
  - cbn. set_solver.
  - cbn. lia.
  - cbn. lia.
  - cbn in Hin.
    apply elem_of_cons in Hin as [->|Hin]; [done|].
    apply elem_of_cons in Hin as [->|Hin]; [done|].
    by apply elem_of_nil in Hin.
Qed.

(** C10: a row with fewer than two alleles does not reach the result of
    [smart_split_multi_mt]: the result is the one computed from the table
    without such rows, it exists whenever the split goes through, and
    every row in it has exactly two alleles, so none carries the key of
    the short row. *)
Theorem smart_split_multi_mt_drops_short_rows (mt : MatrixTable)
    (left_aligned : bool) (r : Row) :
  r ∈ rows mt → length (alleles r) < 2 →
  (left_aligned = true → left_aligned_rows mt) →
  ∃ out,
    smart_split_multi_mt mt left_aligned = ok out
    ∧ smart_split_multi_mt
        (set_rows mt (filter (λ x, 2 ≤ length (alleles x)) (rows mt))) left_aligned
      = ok out
    ∧ ∀ r', r' ∈ rows out →
            length (alleles r') = 2
            ∧ (locus r', alleles r') ≠ (locus r, alleles r).
Proof.
  intros Hr Hshort Hla.
  destruct (smart_split_multi_mt_total mt left_aligned Hla) as [out Hout].
  exists out. split_and!; [done| |].
  - rewrite <- Hout. unfold smart_split_multi_mt, key_rows_by_locus_alleles.
    assert (∀ q : Row → bool, (∀ x, q x = true → 2 ≤ length (alleles x)) →
              filter_rows (λ x, Some (q x)) true
                (set_rows mt (filter (λ x, 2 ≤ length (alleles x)) (rows mt)))
              = filter_rows (λ x, Some (q x)) true mt) as Hfr.
    { intros q Hq. unfold filter_rows, set_rows; cbn. f_equal.
      rewrite list_filter_filter. apply list_filter_iff. intros x.
      split; [tauto|]. intros Hx. split; [done|].
      apply Hq. by destruct (q x). }
    rewrite !Hfr; [done| |].
    + intros x Hx. apply bool_decide_eq_true in Hx. lia.
    + intros x Hx. apply bool_decide_eq_true in Hx. lia.
  - intros r' Hr'.
    assert (length (alleles r') = 2) as Hlen.
    { apply smart_split_multi_mt_ok in Hout as (_ & _ & sp & Hrows & Hsp).
      rewrite Hrows in Hr'. apply elem_of_app in Hr' as [Hr'|Hr'].
      - rewrite Hsp in Hr'.
        apply elem_of_split_rows in Hr' as (r0 & i & _ & _ & ->). done.
      - apply list_elem_of_fmap in Hr' as (r0 & -> & Hr0).
        by apply list_elem_of_filter in Hr0 as [Hlen _]. }
    split; [done|]. intros [= _ Heq]. rewrite Heq in Hlen. lia.
Qed.

(** The theorem at the fixture with a single-allele row. *)
Lemma smart_split_multi_mt_drops_short_rows_witness :
  ∃ out,
    smart_split_multi_mt mt_short true = ok out
    ∧ smart_split_multi_mt
        (set_rows mt_short
           (filter (λ x, 2 ≤ length (alleles x)) (rows mt_short))) true
      = ok out
    ∧ ∀ r', r' ∈ rows out →
            length (alleles r') = 2
            ∧ (locus r', alleles r')
              ≠ (locus (plain_row "chr1" 100 ["A"] [Some (hap 12 40)]),
                 alleles (plain_row "chr1" 100 ["A"] [Some (hap 12 40)])).
Proof.
  apply (smart_split_multi_mt_drops_short_rows mt_short true
           (plain_row "chr1" 100 ["A"] [Some (hap 12 40)])).
  - apply list_elem_of_here.
  - vm_compute. lia.
  - intros _. apply (bool_decide_unpack _). vm_compute. exact I.
Defined.

(** ** Stages that need [variant_qc] *)

Lemma getattr_missing mt field :
  field ∉ row_fields mt →
  getattr mt field
  = raise (AttributeError ("MatrixTable instance has no field " +:+ field)).
Proof. intros H. unfold getattr. by rewrite bool_decide_eq_false_2. Qed.

(** Without [variant_qc] in the schema, [filter_no_carriers] prints its
    message and then raises on the unguarded access. *)
Lemma filter_no_carriers_missing mt :
  "variant_qc" ∉ row_fields mt →
  filter_no_carriers mt
  = (["filter_no_carriers requires variant_qc"],
     raise (AttributeError "MatrixTable instance has no field variant_qc")).
Proof.
  intros H. unfold filter_no_carriers, probe_variant_qc.
  by rewrite getattr_missing.
Qed.

(** The same for [hard_variant_filter_mt] as soon as a threshold is set. *)
Lemma hard_variant_filter_mt_missing mt min_p_value_hwe min_GQ :
  "variant_qc" ∉ row_fields mt →
  is_Some min_p_value_hwe ∨ is_Some min_GQ →
  hard_variant_filter_mt mt min_p_value_hwe min_GQ
  = (["hard_variant_filter requires variant_qc"],
     raise (AttributeError "MatrixTable instance has no field variant_qc")).
Proof.
  intros H Hset. unfold hard_variant_filter_mt, probe_variant_qc.
  destruct min_p_value_hwe as [p|], min_GQ as [g|];
    cbn [mbind Result_bind ok]; rewrite ?getattr_missing by done; try done.
  by destruct Hset as [[? [=]]|[? [=]]].
Qed.

(** C3: on a table without [variant_qc], [filter_no_carriers] and
    [hard_variant_filter_mt] with a threshold set print their message and
    then raise [AttributeError]: the stage is neither skipped nor does it
    return the input. *)
Theorem missing_variant_qc_raises :
  filter_no_carriers mt_two_rows
  = (["filter_no_carriers requires variant_qc"],
     raise (AttributeError "MatrixTable instance has no field variant_qc"))
  ∧ hard_variant_filter_mt mt_two_rows (Some (1 # 1000)%Q) None
    = (["hard_variant_filter requires variant_qc"],
       raise (AttributeError "MatrixTable instance has no field variant_qc"))
  ∧ hard_variant_filter_mt mt_two_rows None (Some 20%Q)
    = (["hard_variant_filter requires variant_qc"],
       raise (AttributeError "MatrixTable instance has no field variant_qc")).
Proof. split_and!; reflexivity. Qed.

(** C7: with both thresholds unset, [hard_variant_filter_mt] returns its
    input; the only effect is the message printed when [variant_qc] is
    not in the schema. *)
Theorem hard_variant_filter_mt_unset_identity (mt : MatrixTable) :
  (hard_variant_filter_mt mt None None).2 = ok mt
  ∧ (hard_variant_filter_mt mt None None).1
    = if bool_decide ("variant_qc" ∈ row_fields mt) then []
      else ["hard_variant_filter requires variant_qc"].
Proof.
  split; [done|].
  unfold hard_variant_filter_mt, probe_variant_qc, getattr; cbn [fst].
  by case_bool_decide.
Qed.

(** ** Interval QC *)

Lemma interval_lookup_is_Some table l :
  is_Some (interval_lookup table l)
  ↔ ∃ b, b ∈ table ∧ interval_contains b l = true.
Proof.
  unfold interval_lookup. split.
  - intros [b Hb]. exists b. apply head_Some_elem_of in Hb.
    apply list_elem_of_filter in Hb as [Hc Hb]. split; [done|].
    by apply Is_true_true.
  - intros (b & Hb & Hc).
    destruct (filter _ table) as [|b' l'] eqn:E; [|by eexists].
    assert (b ∈ filter (λ b, interval_contains b l) table) as Hin
      by (apply list_elem_of_filter; split; [by apply Is_true_true | done]).
    rewrite E in Hin. by apply elem_of_nil in Hin.
Qed.

Lemma elem_of_filter_regex (lines : list BedLine) region b :
  b ∈ filter (λ b, ¬ filter_regex_matches region (bed_line_text b)) lines
  ↔ b ∈ lines ∧ String.prefix ("chr" +:+ region) (bed_line_text b) = true.
Proof.
  rewrite list_elem_of_filter. unfold filter_regex_matches.
  destruct (String.prefix _ _); cbn; [tauto|].
  split; [intros [H _]; by destruct H | by intros [_ ?]].
Qed.

(** The intervals [import_bed] returns, when it returns. *)
Lemma import_bed_ok lines region table :
  import_bed lines region = ok table →
  ∀ b, b ∈ table
       ↔ b ∈ lines ∧ String.prefix ("chr" +:+ region) (bed_line_text b) = true.
Proof.
  unfold import_bed. intros H b. rewrite <- elem_of_filter_regex.
  destruct (filter _ lines) as [|b0 l]; [done|]. by injection H as <-.
Qed.

(** [import_bed] returns exactly when the filter leaves a line. *)
Lemma import_bed_total lines region :
  Exists (λ b, String.prefix ("chr" +:+ region) (bed_line_text b) = true) lines →
  ∃ table, import_bed lines region = ok table.
Proof.
  intros H. apply Exists_exists in H as (b & Hb & Hp).
  unfold import_bed.
  destruct (filter _ lines) as [|b0 l] eqn:E; [|by eexists].
  assert (b ∈ filter (λ b, ¬ filter_regex_matches region (bed_line_text b)) lines)
    as Hin by (by apply elem_of_filter_regex).
  rewrite E in Hin. by apply elem_of_nil in Hin.
Qed.

Lemma import_bed_none lines region :
  ¬ Exists (λ b, String.prefix ("chr" +:+ region) (bed_line_text b) = true) lines →
  import_bed lines region
  = raise (ValueError "Invalid file: no lines remaining after filters").
Proof.
  intros H. unfold import_bed.
  destruct (filter _ lines) as [|b0 l] eqn:E; [done|]. exfalso. apply H.
  assert (b0 ∈ filter (λ b, ¬ filter_regex_matches region (bed_line_text b)) lines)
    as Hin by (rewrite E; apply list_elem_of_here).
  apply elem_of_filter_regex in Hin as [? ?]. apply Exists_exists. eauto.
Qed.

(** What [interval_qc_mt] keeps: the rows whose locus lies in an interval
    of a line that starts with [chr<region>]. *)
Lemma interval_qc_mt_rows mt (mapping : gmap string string) intervals region :
  mapping !! "GRCh38_region" = Some region →
  Exists (λ b, String.prefix ("chr" +:+ region) (bed_line_text b) = true) intervals →
  ∃ out, interval_qc_mt mt mapping intervals = ok out
    ∧ ∀ r, r ∈ rows out
           ↔ r ∈ rows mt
             ∧ ∃ b, b ∈ intervals
                    ∧ String.prefix ("chr" +:+ region) (bed_line_text b) = true
                    ∧ interval_contains b (locus r) = true.
Proof.
  intros Hreg Hex. unfold interval_qc_mt, dict_get. rewrite Hreg.
  cbn [mbind Result_bind ok].
  destruct (import_bed_total _ _ Hex) as [table Htable]. rewrite Htable.
  cbn [mbind Result_bind ok].
  pose proof (import_bed_ok _ _ _ Htable) as Hin.
  eexists. split; [reflexivity|]. intros r. cbn.
  rewrite list_elem_of_filter. cbn.
  rewrite bool_decide_spec, interval_lookup_is_Some.
  split.
  - intros [(b & Hb & Hc) Hr]. split; [done|]. exists b.
    apply Hin in Hb as [Hb Hp]. by split_and!.
  - intros [Hr (b & Hb & Hp & Hc)]. split; [|done]. exists b. split; [|done].
    by apply Hin.
Qed.

(** C4: with the mapping naming chromosome 1, the line filter keeps an
    interval on chr10 (its line starts with the text chr1), and a row on
    chr10 inside it is retained. *)
Theorem interval_qc_mt_keeps_chr10 :
  import_bed bed_chr10 "1" = ok bed_chr10
  ∧ interval_qc_mt mt_chr10 mapping_chr1 bed_chr10 = ok mt_chr10.
Proof. split; vm_compute; reflexivity. Qed.

(** ** Column filters *)

Lemma select_stays_filter {A} (pred : A → option bool) (keep : bool) (l : list A) :
  select (stays keep <$> (pred <$> l)) l = filter (λ c, stays keep (pred c)) l.
Proof.
  induction l as [|x l IH]; [done|]. cbn [fmap list_fmap select].
  destruct (stays keep (pred x)) eqn:E.
  - rewrite filter_cons_True by (by apply Is_true_true). by rewrite IH.
  - rewrite filter_cons_False by (intros ?%Is_true_true; congruence). done.
Qed.

Lemma cols_filter_cols pred keep mt :
  cols (filter_cols pred keep mt) = filter (λ c, stays keep (pred c)) (cols mt).
Proof. apply select_stays_filter. Qed.

Lemma row_header_filter_cols_mask mask keep mt :
  row_header <$> rows (filter_cols_mask mask keep mt) = row_header <$> rows mt.
Proof. cbn. rewrite <- list_fmap_compose. by apply list_fmap_ext. Qed.

Lemma zip_nil_r {A B} (xs : list A) : zip xs (@nil B) = [].
Proof. by destruct xs. Qed.

Lemma select_zip {A B} (m : list bool) (xs : list A) (ys : list B) :
  zip (select m xs) (select m ys) = select m (zip xs ys).
Proof.
  revert xs ys. induction m as [|b m IH]; intros [|x xs] [|y ys]; cbn;
    rewrite ?zip_nil_r; try done.
  destruct b; cbn; by rewrite IH.
Qed.

Lemma select_filter_fst {A B} (P : A → bool) (xs : list A) (ys : list B) :
  length xs = length ys →
  select (P <$> xs) (zip xs ys) = filter (λ cy, P cy.1) (zip xs ys).
Proof.
  revert ys. induction xs as [|x xs IH]; intros [|y ys] Hlen; try done.
  cbn [length] in Hlen. cbn [fmap list_fmap select zip_with].
  destruct (P x) eqn:E.
  - rewrite filter_cons_True by (by apply Is_true_true). rewrite IH by lia. done.
  - rewrite filter_cons_False by (cbn; intros ?%Is_true_true; congruence).
    apply IH. lia.
Qed.

Lemma length_select_le {A} (m : list bool) (xs : list A) :
  length (select m xs) ≤ length (filter (λ b, b = true) m).
Proof.
  revert xs. induction m as [|b m IH]; intros [|x xs]; cbn [select length];
    try lia.
  destruct b.
  - rewrite filter_cons_True by done. cbn [length]. specialize (IH xs). lia.
  - rewrite filter_cons_False by done. apply IH.
Qed.

Lemma length_select_eq {A} (m : list bool) (xs : list A) :
  length m = length xs →
  length (select m xs) = length (filter (λ b, b = true) m).
Proof.
  revert xs. induction m as [|b m IH]; intros [|x xs] Hlen; try done.
  cbn [length] in Hlen. cbn [select].
  destruct b.
  - rewrite filter_cons_True by done. cbn [length]. rewrite IH by lia. done.
  - rewrite filter_cons_False by done. apply IH. lia.
Qed.

Lemma select_all {A} (m : list bool) (xs : list A) :
  Forall (λ b, b = true) m → length xs ≤ length m → select m xs = xs.
Proof.
  intros Hm. revert xs. induction Hm as [|b m -> Hm IH]; intros [|x xs] Hlen;
    cbn in *; try done; try lia.
  rewrite IH by lia. done.
Qed.

Lemma set_entries_entries r : set_entries r (entries r) = r.
Proof. by destruct r. Qed.

Lemma rows_filter_cols_mask mask keep mt :
  rows (filter_cols_mask mask keep mt)
  = (λ r, set_entries r (select (stays keep <$> mask) (entries r))) <$> rows mt.
Proof. done. Qed.

Lemma rows_filter_cols pred keep mt :
  rows (filter_cols pred keep mt)
  = (λ r, set_entries r (select (stays keep <$> (pred <$> cols mt)) (entries r)))
      <$> rows mt.
Proof. done. Qed.

Lemma filter_cols_mask_aligned mask keep mt :
  length mask = length (cols mt) → aligned mt →
  aligned (filter_cols_mask mask keep mt).
Proof.
  intros Hlen Hal. unfold aligned. rewrite rows_filter_cols_mask.
  apply Forall_fmap. eapply Forall_impl; [exact Hal|].
  intros r Hr. cbn.
  rewrite !length_select_eq; [done | |]; rewrite length_fmap; congruence.
Qed.

(** After a column filter the column-entry pairs of a row are the pairs
    of the kept columns. *)
Lemma filter_cols_pairs pred keep mt (es : list (option Entry)) :
  length es = length (cols mt) →
  zip (cols (filter_cols pred keep mt))
      (select (stays keep <$> (pred <$> cols mt)) es)
  = filter (λ ce, stays keep (pred ce.1)) (zip (cols mt) es).
Proof.
  intros Hlen. unfold filter_cols. cbn [cols filter_cols_mask].
  rewrite select_zip, <- list_fmap_compose.
  by rewrite (select_filter_fst (stays keep ∘ pred)).
Qed.

Lemma filter_cols_aligned pred keep mt :
  aligned mt → aligned (filter_cols pred keep mt).
Proof. apply filter_cols_mask_aligned. by rewrite length_fmap. Qed.

(** [hard_sample_filter_mt] is the import of the file followed by the
    two column filters. *)
Lemma hard_sample_filter_mt_unfold mt samples_to_remove :
  hard_sample_filter_mt mt samples_to_remove
  = (λ ht, filter_samples ht mt) <$> import_table_f0 samples_to_remove.
Proof.
  unfold hard_sample_filter_mt. by destruct (import_table_f0 samples_to_remove).
Qed.

Lemma cols_filter_samples ht mt :
  cols (filter_samples ht mt) = filter (sample_kept ht) (cols mt).
Proof.
  unfold filter_samples, anti_join_cols.
  rewrite !cols_filter_cols, list_filter_filter.
  apply list_filter_iff. intros c. cbn. unfold sample_kept.
  rewrite !negb_True, bool_decide_spec. tauto.
Qed.

Lemma filter_samples_aligned ht mt : aligned mt → aligned (filter_samples ht mt).
Proof.
  intros H. unfold filter_samples, anti_join_cols.
  by do 2 apply filter_cols_aligned.
Qed.

(** In every row, the column-entry pairs left by the two filters are the
    pairs of the kept columns. *)
Lemma filter_samples_pairs ht mt :
  aligned mt →
  Forall2 (λ r r',
       row_header r' = row_header r
       ∧ zip (cols (filter_samples ht mt)) (entries r')
         = filter (λ ce, sample_kept ht ce.1) (zip (cols mt) (entries r)))
     (rows mt) (rows (filter_samples ht mt)).
Proof.
  intros Hal. unfold filter_samples, anti_join_cols.
  set (p1 := λ c : Col, Some (bool_decide (Some (s c) ∈ ht))).
  set (p2 := λ c : Col, Some (startswith (s c) "-")).
  pose proof (filter_cols_aligned p1 false mt Hal) as Hal1.
  rewrite !rows_filter_cols, <- list_fmap_compose.
  apply Forall2_fmap_r, Forall_Forall2_diag.
  eapply Forall_impl; [exact Hal|]. intros r Hr. split; [done|].
  cbn [compose entries set_entries].
  rewrite (filter_cols_pairs p2 false (filter_cols p1 false mt)).
  - rewrite (filter_cols_pairs p1 false mt _ Hr).
    rewrite list_filter_filter. apply list_filter_iff. intros [c e]. cbn.
    unfold sample_kept. rewrite !negb_True, bool_decide_spec. tauto.
  - unfold filter_cols. cbn [cols filter_cols_mask].
    rewrite !length_select_eq; [done | |]; rewrite !length_fmap; congruence.
Qed.

(** A line without a tab is its own first field. *)
Lemma first_field_single (l : string) : field_count l = 1 → first_field l = l.
Proof.
  unfold field_count. induction l as [|c l IH]; [done|].
  cbn [list_ascii_of_string first_field]. destruct (decide (c = ascii_of_nat 9)).
  - rewrite filter_cons_True by done. done.
  - rewrite filter_cons_False by done. intros H. by rewrite IH.
Qed.

Lemma mapM_Result_ok {A B} (f : A → Result B) (g : A → B) (l : list A) :
  Forall (λ x, f x = ok (g x)) l → mapM f l = ok (g <$> l).
Proof.
  induction 1 as [|x l Hx Hl IH]; [done|].
  cbn [mapM]. rewrite Hx, IH. done.
Qed.

(** The keys of a single-column file: its lines, the text NA excepted. *)
Lemma import_table_f0_single_column lines :
  lines ≠ [] → single_column lines →
  import_table_f0 lines = ok (listed_keys lines).
Proof.
  intros Hne Hsc. unfold import_table_f0, listed_keys.
  destruct lines as [|first rest]; [done|].
  assert (field_count first = 1) as ->
    by (by apply Forall_cons in Hsc as [[_ ?] _]).
  apply mapM_Result_ok. eapply Forall_impl; [exact Hsc|].
  intros l [Hl Hc]. unfold read_line, key_f0.
  rewrite decide_False by done. rewrite decide_True by done.
  by rewrite first_field_single.
Qed.

Lemma sample_kept_listed lines c :
  sample_kept (listed_keys lines) c ↔ listed_kept lines c.
Proof.
  unfold sample_kept, listed_kept, listed_keys.
  rewrite list_elem_of_fmap.
  assert ((∃ l, Some (s c) = (if decide (l = "NA") then None else Some l)
                ∧ l ∈ lines)
          ↔ s c ∈ lines ∧ s c ≠ "NA") as ->; [|done].
  split.
  - intros (l & Heq & Hl). destruct (decide (l = "NA")); [done|].
    by injection Heq as ->.
  - intros [Hl Hna]. exists (s c). by rewrite decide_False.
Qed.

(** C5 (amended): for a table with one entry slot per column and a
    non-empty exclusion file of one sample id per line, without blank
    line, [hard_sample_filter_mt] returns a table whose columns are
    exactly the columns of the input whose sample id is not a line of
    the file (the text NA excepted, which the engine reads as a missing
    value) and does not start with [-]; every row stays, with its key
    and annotations, and its calls are exactly the calls of the kept
    columns.  With exclusion list S1 and columns S1, S2, -S3 the columns
    left are S2. *)
Theorem hard_sample_filter_mt_columns (mt : MatrixTable)
    (samples_to_remove : list string) :
  aligned mt → samples_to_remove ≠ [] → single_column samples_to_remove →
  ∃ out,
    hard_sample_filter_mt mt samples_to_remove = ok out
    ∧ cols out = filter (listed_kept samples_to_remove) (cols mt)
    ∧ aligned out
    ∧ Forall2 (λ r r',
         row_header r' = row_header r
         ∧ zip (cols out) (entries r')
           = filter (λ ce, listed_kept samples_to_remove ce.1)
                    (zip (cols mt) (entries r)))
       (rows mt) (rows out)
    ∧ (s <$> cols mt = ["S1"; "S2"; "-S3"] → samples_to_remove = ["S1"] →
       s <$> cols out = ["S2"]).
Proof.
  intros Hal Hne Hsc. rewrite hard_sample_filter_mt_unfold.
  rewrite import_table_f0_single_column by done. cbn [fmap Result_fmap].
  eexists. split; [reflexivity|].
  assert (cols (filter_samples (listed_keys samples_to_remove) mt)
          = filter (listed_kept samples_to_remove) (cols mt)) as Hcols.
  { rewrite cols_filter_samples. apply list_filter_iff. intros c.
    apply sample_kept_listed. }
  split_and!.
  - done.
  - by apply filter_samples_aligned.
  - eapply Forall2_impl; [by apply filter_samples_pairs|].
    intros r r' [Hh Hz]. split; [done|]. rewrite Hz.
    apply list_filter_iff. intros [c e]. apply sample_kept_listed.
  - intros Hs ->. rewrite Hcols.
    destruct (cols mt) as [|[s1 t1] [|[s2 t2] [|[s3 t3] [|? ?]]]]; try done.
    cbn in Hs. simplify_eq. by vm_compute.
Qed.

(** The theorem at the three-sample fixture. *)
Lemma hard_sample_filter_mt_columns_witness :
  ∃ out,
    hard_sample_filter_mt mt_three_samples ["S1"] = ok out
    ∧ cols out = filter (listed_kept ["S1"]) (cols mt_three_samples)
    ∧ aligned out
    ∧ Forall2 (λ r r',
         row_header r' = row_header r
         ∧ zip (cols out) (entries r')
           = filter (λ ce, listed_kept ["S1"] ce.1)
                    (zip (cols mt_three_samples) (entries r)))
       (rows mt_three_samples) (rows out)
    ∧ (s <$> cols mt_three_samples = ["S1"; "S2"; "-S3"] → ["S1"] = ["S1"] →
       s <$> cols out = ["S2"]).
Proof.
  apply (hard_sample_filter_mt_columns mt_three_samples ["S1"]).
  - apply (bool_decide_unpack _). vm_compute. exact I.
  - discriminate.
  - apply (bool_decide_unpack _). vm_compute. exact I.
Defined.

(** C5 as stated fails: with the line NA in the exclusion file the
    engine reads a missing key, so the sample named NA, although listed,
    stays; and an empty exclusion file gives no table at all. *)
Lemma hard_sample_filter_mt_na_counterexample :
  hard_sample_filter_mt mt_na ["NA"] = ok mt_na
  ∧ ¬ removes_listed_samples ["NA"] mt_na
  ∧ ∃ msg, hard_sample_filter_mt mt_na [] = raise (ValueError msg).
Proof.
  split; [vm_compute; reflexivity|]. split; [|by eexists].
  intros H. apply (H (sample "NA")).
  - apply list_elem_of_here.
  - apply list_elem_of_here.
Qed.

(** ** Downsampling *)

(** C6: without a probability, [downsample_mt] returns its input and
    leaves the engine's state alone. *)
Theorem downsample_mt_None_identity (Env : Type) (next_seed : Env → Z * Env)
    (rand_bool : Q → Z → nat → bool) (mt : MatrixTable) (seed : option Z)
    (env : Env) :
  downsample_mt Env next_seed rand_bool mt None seed env = (env, ok mt).
Proof. reflexivity. Qed.

(** C8: with a seed, the result of [downsample_mt] is the same whatever
    the state of the engine session it is called in, and the call leaves
    that state unchanged: two calls with the same table, probability and
    seed retain the same samples. *)
Theorem downsample_mt_deterministic (Env : Type) (next_seed : Env → Z * Env)
    (rand_bool : Q → Z → nat → bool) (mt : MatrixTable) (prob : Q) (seed : Z)
    (env1 env2 : Env) :
  (downsample_mt Env next_seed rand_bool mt (Some prob) (Some seed) env1).2
  = (downsample_mt Env next_seed rand_bool mt (Some prob) (Some seed) env2).2
  ∧ (downsample_mt Env next_seed rand_bool mt (Some prob) (Some seed) env1).1
    = env1.
Proof.
  unfold downsample_mt, sample_cols.
  by destruct (negb _).
Qed.

(** ** Variant ids *)

Lemma add_field_idemp f fs : add_field f (add_field f fs) = add_field f fs.
Proof.
  unfold add_field. destruct (decide (f ∈ fs)) as [Hin|Hin].
  - by rewrite decide_True.
  - rewrite decide_True; [done|]. apply elem_of_app. right. apply list_elem_of_here.
Qed.

Lemma varid_expr_set_varid r v : varid_expr (set_varid r v) = varid_expr r.
Proof. done. Qed.

Lemma set_varid_set_varid r v w : set_varid (set_varid r v) w = set_varid r w.
Proof. done. Qed.

Lemma mapM_set_varid_again rs rs' :
  mapM (λ r, set_varid r <$> varid_expr r) rs = ok rs' →
  mapM (λ r, set_varid r <$> varid_expr r) rs' = ok rs'.
Proof.
  revert rs'. induction rs as [|r rs IH]; intros rs'.
  - by intros [= <-].
  - cbn [mapM]. destruct (varid_expr r) as [e|v] eqn:Hv; [done|].
    cbn [fmap Result_fmap mbind Result_bind].
    destruct (mapM _ rs) as [e|k] eqn:Hk; [done|].
    intros [= <-]. cbn [mapM].
    rewrite varid_expr_set_varid, Hv. cbn [fmap Result_fmap mbind Result_bind].
    rewrite (IH k eq_refl). done.
Qed.

Lemma add_varid_again mt out : add_varid mt = ok out → add_varid out = ok out.
Proof.
  unfold add_varid. destruct (mapM _ (rows mt)) as [e|rs] eqn:Hrs; [done|].
  intros [= <-]. cbn [rows row_fields cols].
  rewrite (mapM_set_varid_again _ _ Hrs). cbn [mbind Result_bind ok].
  by rewrite add_field_idemp.
Qed.

Lemma mapM_set_varid_total rs :
  Forall (λ r, 2 ≤ length (alleles r)) rs →
  ∃ rs', mapM (λ r, set_varid r <$> varid_expr r) rs = ok rs'
    ∧ Forall2 (λ r r', ∃ ref alt rest, alleles r = ref :: alt :: rest
                 ∧ r' = set_varid r (colon_joined r ref alt)) rs rs'.
Proof.
  induction 1 as [|r rs Hr Hrs (k & Hk & IH)]; [by exists []|].
  destruct r as [l als q ai ws vi es en]. cbn in Hr.
  destruct als as [|ref [|alt rest]]; cbn in Hr; try lia.
  eexists. cbn [mapM]. rewrite Hk. split; [reflexivity|].
  constructor; [|done]. by exists ref, alt, rest.
Qed.

(** C9: [add_varid] applied to its own result changes nothing, also when
    the first application raises; on a table whose rows all have at least
    two alleles it returns a table in which every row carries, as
    [varid], the colon-joined contig, position and first two alleles,
    and a second application returns that same table. *)
Theorem add_varid_idempotent (mt : MatrixTable) :
  (add_varid mt ≫= add_varid) = add_varid mt
  ∧ (Forall (λ r, 2 ≤ length (alleles r)) (rows mt) →
     ∃ out, add_varid mt = ok out ∧ add_varid out = ok out
       ∧ Forall2 (λ r r', ∃ ref alt rest, alleles r = ref :: alt :: rest
                    ∧ r' = set_varid r (colon_joined r ref alt))
           (rows mt) (rows out)).
Proof.
  split.
  - destruct (add_varid mt) as [e|out] eqn:Hout; [done|].
    exact (add_varid_again mt out Hout).
  - intros Hall. destruct (mapM_set_varid_total _ Hall) as (rs' & Hrs' & HF).
    assert (add_varid mt = ok {| row_fields := add_field "varid" (row_fields mt);
                                 cols := cols mt; rows := rs' |}) as Hout
      by (unfold add_varid; by rewrite Hrs').
    eexists. split; [exact Hout|].
    split; [exact (add_varid_again mt _ Hout) | done].
Qed.

(** * Further properties of the code *)

(** ** Further properties of the sample filter *)

Lemma filter_cols_all pred keep mt :
  Forall (λ c, stays keep (pred c) = true) (cols mt) →
  Forall (λ r, length (entries r) ≤ length (cols mt)) (rows mt) →
  filter_cols pred keep mt = mt.
Proof.
  intros Hc Hr. unfold filter_cols, filter_cols_mask.
  assert (Forall (λ b, b = true) (stays keep <$> (pred <$> cols mt))) as Hm.
  { rewrite <- list_fmap_compose. apply Forall_fmap.
    eapply Forall_impl; [exact Hc|]. done. }
  destruct mt as [fs cs rs]. cbn in *. f_equal.
  - apply select_all; [done|]. by rewrite !length_fmap.
  - rewrite <- (list_fmap_id rs) at 2. apply Forall_fmap_ext_1.
    eapply Forall_impl; [exact Hr|]. intros r Hlen. cbn.
    rewrite select_all; [apply set_entries_entries | done |].
    by rewrite !length_fmap.
Qed.

Lemma filter_cols_short pred keep mt :
  Forall (λ r, length (entries r) ≤ length (cols (filter_cols pred keep mt)))
         (rows (filter_cols pred keep mt)).
Proof.
  unfold filter_cols. rewrite rows_filter_cols_mask. apply Forall_fmap, Forall_true.
  intros r. cbn.
  rewrite (length_select_eq _ (cols mt)) by (by rewrite !length_fmap).
  apply length_select_le.
Qed.

Lemma filter_samples_idemp ht mt :
  filter_samples ht (filter_samples ht mt) = filter_samples ht mt.
Proof.
  pose proof (cols_filter_samples ht mt) as Hcols.
  assert (Forall (sample_kept ht) (cols (filter_samples ht mt))) as Hkept.
  { rewrite Hcols. apply Forall_forall. intros c Hc.
    by apply list_elem_of_filter in Hc as [Hc _]. }
  assert (Forall (λ r, length (entries r) ≤ length (cols (filter_samples ht mt)))
            (rows (filter_samples ht mt))) as Hshort
    by apply filter_cols_short.
  set (out := filter_samples ht mt) in *.
  unfold filter_samples at 1, anti_join_cols.
  rewrite (filter_cols_all _ false out); [apply filter_cols_all; [|done] | | done].
  - eapply Forall_impl; [exact Hkept|]. intros c [_ H2]. cbn.
    by destruct (startswith (s c) "-").
  - eapply Forall_impl; [exact Hkept|]. intros c [H1 _]. cbn.
    by rewrite bool_decide_eq_false_2.
Qed.

Lemma read_line_ok n (l : string) :
  l ≠ "" → field_count l = n → read_line n l = ok (key_f0 l).
Proof.
  intros Hl Hn. unfold read_line.
  rewrite decide_False by done. by rewrite decide_True.
Qed.

Lemma import_table_f0_total first rest :
  Forall (λ l, l ≠ "" ∧ field_count l = field_count first) (first :: rest) →
  import_table_f0 (first :: rest) = ok (key_f0 <$> first :: rest).
Proof.
  intros H. unfold import_table_f0. apply mapM_Result_ok.
  eapply Forall_impl; [exact H|]. intros l [Hl Hn]. by apply read_line_ok.
Qed.

(** X1: on a table with one entry slot per column: an empty exclusion
    file makes [hard_sample_filter_mt] raise [ValueError]; a file whose
    lines are not blank and all have the number of fields of the first
    gives a table of the same shape in which the columns left are those
    whose sample id is no key of the file (the first field of a line,
    the text NA excepted) and does not start with a dash, and in every
    row the calls left are exactly the calls of these columns, each
    still paired with its sample. *)
Theorem hard_sample_filter_mt_pairs (mt : MatrixTable)
    (samples_to_remove : list string) :
  aligned mt →
  (samples_to_remove = [] →
   ∃ msg, hard_sample_filter_mt mt samples_to_remove = raise (ValueError msg))
  ∧ (∀ first rest,
       samples_to_remove = first :: rest →
       Forall (λ l, l ≠ "" ∧ field_count l = field_count first) samples_to_remove →
       ∃ out,
         hard_sample_filter_mt mt samples_to_remove = ok out
         ∧ aligned out
         ∧ cols out = filter (sample_kept (key_f0 <$> samples_to_remove)) (cols mt)
         ∧ Forall2 (λ r r',
              row_header r' = row_header r
              ∧ zip (cols out) (entries r')
                = filter (λ ce, sample_kept (key_f0 <$> samples_to_remove) ce.1)
                         (zip (cols mt) (entries r)))
            (rows mt) (rows out)).
Proof.
  intros Hal. split; [intros ->; by eexists|].
  intros first rest -> Hwf. rewrite hard_sample_filter_mt_unfold.
  rewrite (import_table_f0_total _ _ Hwf). cbn [fmap Result_fmap].
  eexists. split; [reflexivity|]. split_and!.
  - by apply filter_samples_aligned.
  - apply cols_filter_samples.
  - by apply filter_samples_pairs.
Qed.

(** The theorem at the three-sample fixture, with a two-column file. *)
Lemma hard_sample_filter_mt_pairs_witness :
  (["S1" +:+ tab +:+ "related"; "S9" +:+ tab +:+ "outlier"] = [] →
   ∃ msg, hard_sample_filter_mt mt_three_samples
            ["S1" +:+ tab +:+ "related"; "S9" +:+ tab +:+ "outlier"]
          = raise (ValueError msg))
  ∧ (∀ first rest,
       ["S1" +:+ tab +:+ "related"; "S9" +:+ tab +:+ "outlier"] = first :: rest →
       Forall (λ l, l ≠ "" ∧ field_count l = field_count first)
         ["S1" +:+ tab +:+ "related"; "S9" +:+ tab +:+ "outlier"] →
       ∃ out,
         hard_sample_filter_mt mt_three_samples
           ["S1" +:+ tab +:+ "related"; "S9" +:+ tab +:+ "outlier"] = ok out
         ∧ aligned out
         ∧ cols out
           = filter (sample_kept
                       (key_f0 <$> ["S1" +:+ tab +:+ "related";
                                    "S9" +:+ tab +:+ "outlier"]))
                    (cols mt_three_samples)
         ∧ Forall2 (λ r r',
              row_header r' = row_header r
              ∧ zip (cols out) (entries r')
                = filter (λ ce,
                     sample_kept
                       (key_f0 <$> ["S1" +:+ tab +:+ "related";
                                    "S9" +:+ tab +:+ "outlier"]) ce.1)
                    (zip (cols mt_three_samples) (entries r)))
            (rows mt_three_samples) (rows out)).
Proof.
  apply (hard_sample_filter_mt_pairs mt_three_samples
           ["S1" +:+ tab +:+ "related"; "S9" +:+ tab +:+ "outlier"]).
  apply (bool_decide_unpack _). vm_compute. exact I.
Defined.

(** X2: [hard_sample_filter_mt] is idempotent: when it returns a table, a
    second pass with the same exclusion file returns that table. *)
Theorem hard_sample_filter_mt_idempotent (mt out : MatrixTable)
    (samples_to_remove : list string) :
  hard_sample_filter_mt mt samples_to_remove = ok out →
  hard_sample_filter_mt out samples_to_remove = ok out.
Proof.
  rewrite !hard_sample_filter_mt_unfold.
  destruct (import_table_f0 samples_to_remove) as [e|ht]; [done|].
  cbn [fmap Result_fmap]. intros [= <-]. by rewrite filter_samples_idemp.
Qed.

(** The theorem at the three-sample fixture. *)
Lemma hard_sample_filter_mt_idempotent_witness :
  hard_sample_filter_mt (filter_samples (listed_keys ["S1"]) mt_three_samples) ["S1"]
  = ok (filter_samples (listed_keys ["S1"]) mt_three_samples).
Proof.
  apply (hard_sample_filter_mt_idempotent mt_three_samples _ ["S1"]).
  reflexivity.
Defined.

(** ** Further properties of the genotype filter *)

(** X3: an unset threshold makes [genotype_filter_mt] raise and return
    no table: with [min_DP] unset it is the [TypeError] of the floor
    division of [None], whatever [min_GQ] is; with [min_DP] a number
    within the engine's 64-bit range and [min_GQ] unset it is the
    [TypeError] of the engine's argument check of the comparison. *)
Theorem genotype_filter_mt_thresholds (mt : MatrixTable) (min_DP min_GQ : option Q)
    (log_entries_filtered : bool) :
  (min_DP = None →
   genotype_filter_mt mt min_DP min_GQ log_entries_filtered
   = raise (TypeError "unsupported operand type(s) for //: 'NoneType' and 'int'"))
  ∧ (∀ d, min_DP = Some d →
       (inject_Z (- 2 ^ 63) <= d)%Q → (d < inject_Z (2 ^ 63))%Q →
       min_GQ = None →
       ∃ msg, genotype_filter_mt mt min_DP min_GQ log_entries_filtered
              = raise (TypeError msg))
  ∧ (min_DP = None ∨ min_GQ = None →
     ¬ ∃ out, genotype_filter_mt mt min_DP min_GQ log_entries_filtered = ok out).
Proof.
  split_and!.
  - by intros ->.
  - intros d -> _ _ ->. by eexists.
  - intros [-> | ->] [out Hout]; [done|].
    by destruct min_DP.
Qed.

Example genotype_filter_mt_min_GQ_unset :
  ∃ msg, genotype_filter_mt mt_two_rows (Some 25%Q) None true = raise (TypeError msg).
Proof. by eexists. Qed.

Lemma count_filtered_remaining (es : list (option Entry)) :
  count_filtered es + count_remaining es = length es.
Proof.
  unfold count_filtered, count_remaining.
  induction es as [|[e|] es IH]; [done| |].
  - rewrite filter_cons_False by done. rewrite filter_cons_True by done.
    cbn [length]. lia.
  - rewrite filter_cons_True by done.
    rewrite filter_cons_False by (by intros [? [=]]).
    cbn [length]. lia.
Qed.

Lemma length_filter_fmap {A B} (P : B → Prop) `{!∀ x, Decision (P x)}
    (f : A → B) (l : list A) :
  length (filter P (f <$> l)) = length (filter (λ x, P (f x)) l).
Proof.
  induction l as [|x l IH]; [done|]. cbn [fmap list_fmap].
  destruct (decide (P (f x))) as [HP|HP].
  - rewrite !filter_cons_True by done. cbn [length]. by rewrite IH.
  - by rewrite !filter_cons_False by done.
Qed.

Lemma column_entries_entry_at mt j :
  column_entries mt j = (λ i, entry_at mt i j) <$> seq 0 (length (rows mt)).
Proof.
  unfold column_entries, entry_at. apply list_eq. intros i.
  rewrite !list_lookup_fmap.
  destruct (rows mt !! i) as [r|] eqn:Hr.
  - rewrite lookup_seq_lt by (by eapply lookup_lt_Some). cbn. by rewrite Hr.
  - rewrite lookup_seq_ge by (by apply lookup_ge_None). done.
Qed.

Lemma compute_entry_filter_stats_col mt j c :
  cols (compute_entry_filter_stats mt) !! j = Some c →
  entry_stats_col c
  = Some {| n_filtered :=
              length (filter (λ i, entry_at (compute_entry_filter_stats mt) i j = None)
                             (seq 0 (length (rows (compute_entry_filter_stats mt)))));
            n_remaining :=
              length (filter (λ i, is_Some (entry_at (compute_entry_filter_stats mt) i j))
                             (seq 0 (length (rows (compute_entry_filter_stats mt))))) |}.
Proof.
  cbn [cols rows compute_entry_filter_stats]. rewrite list_lookup_imap.
  destruct (cols mt !! j) as [c0|]; [|done]. cbn. intros [= <-].
  cbn [entry_stats_col]. unfold entry_stats, count_filtered, count_remaining.
  rewrite column_entries_entry_at, !length_filter_fmap, length_fmap.
  do 2 f_equal.
  - f_equal. apply list_filter_iff. intros i.
    by rewrite entry_at_compute_entry_filter_stats.
  - f_equal. apply list_filter_iff. intros i.
    by rewrite entry_at_compute_entry_filter_stats.
Qed.

Lemma compute_entry_filter_stats_col_sum mt j c :
  cols (compute_entry_filter_stats mt) !! j = Some c →
  ∃ st, entry_stats_col c = Some st
    ∧ n_filtered st + n_remaining st = length (rows mt).
Proof.
  cbn [cols compute_entry_filter_stats]. rewrite list_lookup_imap.
  destruct (cols mt !! j) as [c0|]; [|done]. cbn. intros [= <-].
  eexists. split; [reflexivity|]. cbn [n_filtered n_remaining entry_stats].
  rewrite count_filtered_remaining. unfold column_entries. by rewrite length_fmap.
Qed.

Lemma rows_filter_entries_length pred keep mt :
  length (rows (filter_entries pred keep mt)) = length (rows mt).
Proof. cbn. by rewrite length_fmap. Qed.

(** X4: with [log_entries_filtered] on, every row and every column of a
    table that [genotype_filter_mt] returns carries its counts of
    filtered and remaining entries.  For a row they are the number of
    filtered and of present cells of the row; for the column at index
    [j] they are the number of rows whose cell [j] is filtered and the
    number of rows whose cell [j] holds an entry.  So the two counts of
    a row add up to its number of cells and the two counts of a column
    to the number of rows; the table has the rows and columns of the
    input in number. *)
Theorem genotype_filter_mt_stats (mt out : MatrixTable) (min_DP min_GQ : Q) :
  genotype_filter_mt mt (Some min_DP) (Some min_GQ) true = ok out →
  Forall (λ r, ∃ st, entry_stats_row r = Some st
             ∧ n_filtered st = length (filter (λ oe, oe = None) (entries r))
             ∧ n_remaining st = length (filter (λ oe, is_Some oe) (entries r))
             ∧ n_filtered st + n_remaining st = length (entries r))
    (rows out)
  ∧ (∀ j c, cols out !! j = Some c →
       ∃ st, entry_stats_col c = Some st
         ∧ n_filtered st
           = length (filter (λ i, entry_at out i j = None)
                            (seq 0 (length (rows out))))
         ∧ n_remaining st
           = length (filter (λ i, is_Some (entry_at out i j))
                            (seq 0 (length (rows out))))
         ∧ n_filtered st + n_remaining st = length (rows mt))
  ∧ length (cols out) = length (cols mt)
  ∧ length (rows out) = length (rows mt).
Proof.
  unfold genotype_filter_mt, py_floordiv, hl.to_expr; cbn [mbind Result_bind ok].
  match goal with
  | |- context [filter_entries ?p true mt] => set (fe := filter_entries p true mt)
  end.
  assert (length (rows fe) = length (rows mt)) as Hlen
    by apply rows_filter_entries_length.
  assert (cols fe = cols mt) as Hcols by done.
  clearbody fe. intros [= <-]. split_and!.
  - cbn [rows compute_entry_filter_stats]. apply Forall_fmap, Forall_true.
    intros r. eexists. split; [reflexivity|]. cbn. split_and!; [done..|].
    apply count_filtered_remaining.
  - intros j c Hc. pose proof (compute_entry_filter_stats_col _ _ _ Hc) as Hst.
    destruct (compute_entry_filter_stats_col_sum _ _ _ Hc) as (st & Hst' & Hsum).
    exists st. split; [done|]. rewrite Hst' in Hst. injection Hst as Hst.
    split_and!.
    + by rewrite Hst.
    + by rewrite Hst.
    + by rewrite Hsum.
  - cbn [cols compute_entry_filter_stats]. by rewrite length_imap, Hcols.
  - cbn [rows compute_entry_filter_stats]. by rewrite length_fmap.
Qed.

(** The theorem at the two-row fixture: thresholds 25 and 40. *)
Lemma genotype_filter_mt_stats_witness :
  ∃ out,
    genotype_filter_mt mt_two_rows (Some 25%Q) (Some 40%Q) true = ok out
    ∧ Forall (λ r, ∃ st, entry_stats_row r = Some st
                 ∧ n_filtered st = length (filter (λ oe, oe = None) (entries r))
                 ∧ n_remaining st = length (filter (λ oe, is_Some oe) (entries r))
                 ∧ n_filtered st + n_remaining st = length (entries r))
        (rows out)
    ∧ (∀ j c, cols out !! j = Some c →
         ∃ st, entry_stats_col c = Some st
           ∧ n_filtered st
             = length (filter (λ i, entry_at out i j = None)
                              (seq 0 (length (rows out))))
           ∧ n_remaining st
             = length (filter (λ i, is_Some (entry_at out i j))
                              (seq 0 (length (rows out))))
           ∧ n_filtered st + n_remaining st = length (rows mt_two_rows))
    ∧ length (cols out) = length (cols mt_two_rows)
    ∧ length (rows out) = length (rows mt_two_rows).
Proof.
  eexists. split; [reflexivity|].
  apply (genotype_filter_mt_stats mt_two_rows _ 25%Q 40%Q).
  reflexivity.
Defined.

Example genotype_filter_mt_stats_two_rows :
  (λ out, (entry_stats_row <$> rows out, entry_stats_col <$> cols out))
    <$> genotype_filter_mt mt_two_rows (Some 25%Q) (Some 40%Q) true
  = ok ([Some {| n_filtered := 1; n_remaining := 1 |};
         Some {| n_filtered := 1; n_remaining := 1 |}],
        [Some {| n_filtered := 0; n_remaining := 2 |};
         Some {| n_filtered := 2; n_remaining := 0 |}]).
Proof. vm_compute. reflexivity. Qed.

(** X5: raising a threshold never brings an entry back: an entry kept
    under the higher thresholds is kept under the lower ones, whatever
    the logging flags. *)
Theorem genotype_filter_mt_monotone (mt out out' : MatrixTable)
    (min_DP min_GQ min_DP' min_GQ' : Q) (log log' : bool) :
  (min_DP <= min_DP')%Q → (min_GQ <= min_GQ')%Q →
  genotype_filter_mt mt (Some min_DP) (Some min_GQ) log = ok out →
  genotype_filter_mt mt (Some min_DP') (Some min_GQ') log' = ok out' →
  ∀ i j e, entry_at out' i j = Some e → entry_at out i j = Some e.
Proof.
  intros Hd Hg Hout Hout' i j e He.
  destruct (entry_at_genotype_filter mt min_DP min_GQ log) as (o & Ho & _ & _ & Hiff).
  destruct (entry_at_genotype_filter mt min_DP' min_GQ' log') as (o' & Ho' & _ & _ & Hiff').
  rewrite Hout in Ho. rewrite Hout' in Ho'. simplify_eq.
  apply Hiff' in He as [He (c & d & g & Hc & Hdp & Hgq & Hrule)].
  apply Hiff. split; [done|]. exists c, d, g. split_and!; try done.
  assert (min_DP / 2 <= min_DP' / 2)%Q as Hhalf.
  { unfold Qdiv. apply Qmult_le_compat_r; [done|]. done. }
  destruct Hrule as [(?&?&?)|(?&?&?)]; [left|right]; split_and!; try done.
  - by apply Qle_lt_trans with (min_DP' / 2)%Q.
  - by apply Qle_trans with min_GQ'.
  - by apply Qle_lt_trans with min_DP'.
  - by apply Qle_trans with min_GQ'.
Qed.

(** The theorem at the two-row fixture: thresholds 20/30 against 29/40. *)
Lemma genotype_filter_mt_monotone_witness :
  ∃ out out',
    genotype_filter_mt mt_two_rows (Some 20%Q) (Some 30%Q) false = ok out
    ∧ genotype_filter_mt mt_two_rows (Some 29%Q) (Some 40%Q) true = ok out'
    ∧ ∀ i j e, entry_at out' i j = Some e → entry_at out i j = Some e.
Proof.
  eexists _, _. split; [reflexivity|]. split; [reflexivity|].
  apply (genotype_filter_mt_monotone mt_two_rows _ _ 20%Q 30%Q 29%Q 40%Q false true).
  - vm_compute. discriminate.
  - vm_compute. discriminate.
  - reflexivity.
  - reflexivity.
Defined.

Lemma entry_fixed_filtered pred keep oe :
  entry_fixed pred keep (e ← oe; if stays keep (pred e) then Some e else None).
Proof.
  unfold entry_fixed. destruct oe as [e|]; [|done]. cbn.
  destruct (stays keep (pred e)) eqn:E; [|done]. cbn. by rewrite E.
Qed.

Lemma filter_entries_fixed pred keep mt :
  Forall (λ r, Forall (entry_fixed pred keep) (entries r)) (rows mt) →
  filter_entries pred keep mt = mt.
Proof.
  intros H. unfold filter_entries, set_rows. destruct mt as [fs cs rs]. cbn in *.
  f_equal. rewrite <- (list_fmap_id rs) at 2. apply Forall_fmap_ext_1.
  eapply Forall_impl; [exact H|]. intros r Hr. cbn.
  transitivity (set_entries r (entries r)); [|apply set_entries_entries].
  f_equal. rewrite <- (list_fmap_id (entries r)) at 2. by apply Forall_fmap_ext_1.
Qed.

Lemma filter_entries_entries_fixed pred keep mt :
  Forall (λ r, Forall (entry_fixed pred keep) (entries r))
         (rows (filter_entries pred keep mt)).
Proof.
  cbn. apply Forall_fmap, Forall_true. intros r. cbn.
  apply Forall_fmap, Forall_true. intros oe. apply entry_fixed_filtered.
Qed.

Lemma compute_entry_filter_stats_idemp mt :
  compute_entry_filter_stats (compute_entry_filter_stats mt)
  = compute_entry_filter_stats mt.
Proof.
  unfold compute_entry_filter_stats. cbn [row_fields cols rows]. f_equal.
  - apply add_field_idemp.
  - apply list_eq. intros j. rewrite !list_lookup_imap.
    destruct (cols mt !! j) as [c|]; [|done]. cbn. do 3 f_equal.
    unfold column_entries. cbn [rows]. rewrite <- list_fmap_compose.
    f_equal.
  - rewrite <- list_fmap_compose. by apply list_fmap_ext.
Qed.

(** X6: [genotype_filter_mt] is idempotent: applied with the same
    thresholds and flag to its own result, it returns that result. *)
Theorem genotype_filter_mt_idempotent (mt out : MatrixTable) (min_DP min_GQ : Q)
    (log_entries_filtered : bool) :
  genotype_filter_mt mt (Some min_DP) (Some min_GQ) log_entries_filtered = ok out →
  genotype_filter_mt out (Some min_DP) (Some min_GQ) log_entries_filtered = ok out.
Proof.
  unfold genotype_filter_mt, py_floordiv, hl.to_expr; cbn [mbind Result_bind ok].
  intros [= <-]. f_equal. destruct log_entries_filtered.
  - rewrite (filter_entries_fixed _ true (compute_entry_filter_stats _)).
    + apply compute_entry_filter_stats_idemp.
    + cbn [rows compute_entry_filter_stats]. apply Forall_fmap.
      eapply Forall_impl; [apply filter_entries_entries_fixed|]. done.
  - apply filter_entries_fixed, filter_entries_entries_fixed.
Qed.

(** The theorem at the two-row fixture, with logging on. *)
Lemma genotype_filter_mt_idempotent_witness :
  ∃ out,
    genotype_filter_mt mt_two_rows (Some 25%Q) (Some 40%Q) true = ok out
    ∧ genotype_filter_mt out (Some 25%Q) (Some 40%Q) true = ok out.
Proof.
  eexists. split; [reflexivity|].
  apply (genotype_filter_mt_idempotent mt_two_rows _ 25%Q 40%Q true).
  reflexivity.
Defined.

Lemma select_fmap {A B} (f : A → B) (m : list bool) (xs : list A) :
  select m (f <$> xs) = f <$> select m xs.
Proof.
  revert xs. induction m as [|b m IH]; intros [|x xs]; try done.
  cbn [fmap list_fmap select]. destruct b; cbn [fmap list_fmap]; by rewrite IH.
Qed.

Lemma filter_entries_filter_cols_mask pred k mask keep mt :
  filter_entries pred k (filter_cols_mask mask keep mt)
  = filter_cols_mask mask keep (filter_entries pred k mt).
Proof.
  unfold filter_entries, filter_cols_mask, set_rows. cbn [row_fields cols rows].
  f_equal. rewrite <- !list_fmap_compose. apply list_fmap_ext.
  intros i r _. unfold compose, set_entries. cbn. f_equal.
  by rewrite select_fmap.
Qed.

Lemma filter_entries_filter_cols pred k cpred keep mt :
  filter_entries pred k (filter_cols cpred keep mt)
  = filter_cols cpred keep (filter_entries pred k mt).
Proof. unfold filter_cols. by rewrite filter_entries_filter_cols_mask. Qed.

(** X7: the sample filter and the genotype filter act on different axes
    and commute on tables: when each returns a table on the input, then
    without logging, filtering samples first and calls second returns
    the table of filtering calls first and samples second. *)
Theorem genotype_filter_mt_hard_sample_filter_mt_commute (mt mt1 mt2 : MatrixTable)
    (samples_to_remove : list string) (min_DP min_GQ : option Q) :
  hard_sample_filter_mt mt samples_to_remove = ok mt1 →
  genotype_filter_mt mt min_DP min_GQ false = ok mt2 →
  ∃ out,
    genotype_filter_mt mt1 min_DP min_GQ false = ok out
    ∧ hard_sample_filter_mt mt2 samples_to_remove = ok out.
Proof.
  rewrite !hard_sample_filter_mt_unfold.
  destruct (import_table_f0 samples_to_remove) as [e|ht]; [done|].
  cbn [fmap Result_fmap]. intros [= <-].
  unfold genotype_filter_mt.
  destruct (py_floordiv min_DP 2) as [e|half]; [done|].
  destruct (hl.to_expr min_GQ) as [e|gq]; [done|].
  destruct (hl.to_expr min_DP) as [e|dp]; [done|].
  cbn [mbind Result_bind ok]. intros [= <-].
  eexists. split; [reflexivity|]. f_equal.
  unfold filter_samples, anti_join_cols.
  by rewrite !filter_entries_filter_cols.
Qed.

(** The theorem at the three-sample fixture. *)
Lemma genotype_filter_mt_hard_sample_filter_mt_commute_witness :
  ∃ out,
    genotype_filter_mt (filter_samples (listed_keys ["S1"]) mt_three_samples)
      (Some 26%Q) (Some 40%Q) false = ok out
    ∧ hard_sample_filter_mt
        (filter_entries
           (fun e =>
              hl.or
                (hl.and (hl.and (hl.is_haploid (GT e)) (hl.gt (DP e) 13%Q))
                        (hl.ge (GQ e) 40%Q))
                (hl.and (hl.and (hl.is_diploid (GT e)) (hl.gt (DP e) 26%Q))
                        (hl.ge (GQ e) 40%Q)))
           true mt_three_samples) ["S1"] = ok out.
Proof.
  apply (genotype_filter_mt_hard_sample_filter_mt_commute mt_three_samples _ _
           ["S1"] (Some 26%Q) (Some 40%Q)).
  - reflexivity.
  - reflexivity.
Defined.

(** ** Further properties of the variant-level filters *)

Lemma getattr_present mt field : field ∈ row_fields mt → getattr mt field = ok tt.
Proof. intros H. unfold getattr. by rewrite bool_decide_eq_true_2. Qed.

Lemma stays_not_below (x : option Q) (t : Q) :
  stays false (hl.flt x t) = true ↔ ∃ v, x = Some v ∧ (t <= v)%Q.
Proof.
  destruct x as [v|]; cbn; [|split; [done | by intros (?&?&?)]].
  rewrite negb_true_iff. split.
  - intros H. exists v. split; [done|].
    apply Qnot_lt_le. intros Hlt. apply Qltb_lt in Hlt. congruence.
  - intros (v' & [= <-] & Hle).
    destruct (hl.Qltb v t) eqn:E; [|done].
    apply Qltb_lt in E. exfalso. by apply (Qlt_not_le v t).
Qed.

Lemma hwe_filter_spec p r :
  stays false (hl.flt (variant_qc r ≫= p_value_hwe) p) = true ↔ hwe_at_least p r.
Proof.
  rewrite stays_not_below. unfold hwe_at_least.
  destruct (variant_qc r) as [qc|]; cbn.
  - split; [intros (v & ? & ?); by exists qc, v
           | intros (qc' & v & [= <-] & ? & ?); by exists v].
  - split; [by intros (?&?&?) | by intros (?&?&?&?)].
Qed.

Lemma gq_filter_spec g r :
  stays false (hl.flt (variant_qc r ≫= gq_stats_mean) g) = true
  ↔ gq_mean_at_least g r.
Proof.
  rewrite stays_not_below. unfold gq_mean_at_least.
  destruct (variant_qc r) as [qc|]; cbn.
  - split; [intros (v & ? & ?); by exists qc, v
           | intros (qc' & v & [= <-] & ? & ?); by exists v].
  - split; [by intros (?&?&?) | by intros (?&?&?&?)].
Qed.

Lemma elem_of_rows_filter_rows pred keep mt r :
  r ∈ rows (filter_rows pred keep mt) ↔ r ∈ rows mt ∧ stays keep (pred r) = true.
Proof.
  cbn. rewrite list_elem_of_filter, Is_true_true. tauto.
Qed.

Lemma sublist_rows_filter_rows pred keep mt :
  sublist (rows (filter_rows pred keep mt)) (rows mt).
Proof. cbn. apply sublist_filter. Qed.

(** X8: on a table that carries [variant_qc], [hard_variant_filter_mt]
    prints nothing and returns the rows, in their order, whose HWE
    p-value is defined and not below [min_p_value_hwe] (when set) and
    whose mean genotype quality is defined and not below [min_GQ] (when
    set): a row whose statistic is missing is removed by a set threshold.
    Schema and columns are unchanged. *)
Theorem hard_variant_filter_mt_rows (mt : MatrixTable)
    (min_p_value_hwe min_GQ : option Q) :
  "variant_qc" ∈ row_fields mt →
  ∃ out,
    hard_variant_filter_mt mt min_p_value_hwe min_GQ = ([], ok out)
    ∧ row_fields out = row_fields mt ∧ cols out = cols mt
    ∧ sublist (rows out) (rows mt)
    ∧ ∀ r, r ∈ rows out
           ↔ r ∈ rows mt
             ∧ (∀ p, min_p_value_hwe = Some p → hwe_at_least p r)
             ∧ (∀ g, min_GQ = Some g → gq_mean_at_least g r).
Proof.
  intros Hqc. unfold hard_variant_filter_mt, probe_variant_qc.
  rewrite (getattr_present mt) by done.
  destruct min_p_value_hwe as [p|], min_GQ as [g|];
    cbn [mbind Result_bind ok]; rewrite ?getattr_present by done;
    cbn [mbind Result_bind ok]; eexists; (split; [reflexivity|]);
    split_and!; try done.
  - etrans; apply sublist_rows_filter_rows.
  - intros r. rewrite !elem_of_rows_filter_rows, hwe_filter_spec, gq_filter_spec.
    split.
    + intros [[? ?] ?]. split_and!; [done| |]; by intros ? [= <-].
    + intros (? & Hp & Hg). split_and!; [done|by apply Hp|by apply Hg].
  - apply sublist_rows_filter_rows.
  - intros r. rewrite !elem_of_rows_filter_rows, hwe_filter_spec.
    split.
    + intros [? ?]. split_and!; [done| |done]. by intros ? [= <-].
    + intros (? & Hp & _). split; [done|by apply Hp].
  - apply sublist_rows_filter_rows.
  - intros r. rewrite !elem_of_rows_filter_rows, gq_filter_spec.
    split.
    + intros [? ?]. split_and!; [done|done|]. by intros ? [= <-].
    + intros (? & _ & Hg). split; [done|by apply Hg].
  - intros r. split; [by intros ? | by intros [? _]].
Qed.

(** The theorem at the fixture that carries [variant_qc]. *)
Lemma hard_variant_filter_mt_rows_witness :
  ∃ out,
    hard_variant_filter_mt mt_qc (Some (1 # 1000)%Q) (Some 20%Q) = ([], ok out)
    ∧ row_fields out = row_fields mt_qc ∧ cols out = cols mt_qc
    ∧ sublist (rows out) (rows mt_qc)
    ∧ ∀ r, r ∈ rows out
           ↔ r ∈ rows mt_qc
             ∧ (∀ p, Some (1 # 1000)%Q = Some p → hwe_at_least p r)
             ∧ (∀ g, Some 20%Q = Some g → gq_mean_at_least g r).
Proof.
  apply (hard_variant_filter_mt_rows mt_qc (Some (1 # 1000)%Q) (Some 20%Q)).
  apply (bool_decide_unpack _). vm_compute. exact I.
Defined.

Lemma carrier_filter_spec r :
  stays false ((λ n, bool_decide (n = 0%Z)) <$> (variant_qc r ≫= n_non_ref)) = true
  ↔ has_carrier r.
Proof.
  unfold has_carrier. destruct (variant_qc r) as [qc|]; cbn.
  - destruct (n_non_ref qc) as [n|] eqn:E; cbn.
    + rewrite negb_true_iff, bool_decide_eq_false. split.
      * intros ?. by exists qc, n.
      * intros (? & ? & [= <-] & ? & ?). by simplify_eq.
    + split; [done|]. intros (? & ? & [= <-] & ? & ?). by simplify_eq.
  - split; [done | by intros (?&?&?&?)].
Qed.

(** X9: on a table that carries [variant_qc], [filter_no_carriers] prints
    nothing and keeps, in their order, exactly the rows whose [n_non_ref]
    is defined and not zero; schema and columns are unchanged, and a
    second application returns the same table. *)
Theorem filter_no_carriers_rows (mt : MatrixTable) :
  "variant_qc" ∈ row_fields mt →
  ∃ out,
    filter_no_carriers mt = ([], ok out)
    ∧ row_fields out = row_fields mt ∧ cols out = cols mt
    ∧ sublist (rows out) (rows mt)
    ∧ (∀ r, r ∈ rows out ↔ r ∈ rows mt ∧ has_carrier r)
    ∧ filter_no_carriers out = ([], ok out).
Proof.
  intros Hqc. unfold filter_no_carriers, probe_variant_qc.
  rewrite (getattr_present mt) by done. cbn [mbind Result_bind ok].
  eexists. split; [reflexivity|]. split_and!; try done.
  - apply sublist_rows_filter_rows.
  - intros r. by rewrite elem_of_rows_filter_rows, carrier_filter_spec.
  - rewrite getattr_present by done. cbn [mbind Result_bind ok].
    do 2 f_equal. unfold filter_rows, set_rows. cbn [row_fields cols rows].
    f_equal. rewrite list_filter_filter. apply list_filter_iff. tauto.
Qed.

(** The theorem at the fixture that carries [variant_qc]. *)
Lemma filter_no_carriers_rows_witness :
  ∃ out,
    filter_no_carriers mt_qc = ([], ok out)
    ∧ row_fields out = row_fields mt_qc ∧ cols out = cols mt_qc
    ∧ sublist (rows out) (rows mt_qc)
    ∧ (∀ r, r ∈ rows out ↔ r ∈ rows mt_qc ∧ has_carrier r)
    ∧ filter_no_carriers out = ([], ok out).
Proof.
  apply (filter_no_carriers_rows mt_qc).
  apply (bool_decide_unpack _). vm_compute. exact I.
Defined.

(** ** Further properties of the interval filter *)

(** X10: [interval_qc_mt] reads one key of the mapping: without
    [GRCh38_region] it raises [KeyError] for that key, and two mappings
    that agree on it give the same result: the start and end of the
    region play no part. *)
Theorem interval_qc_mt_reads_region_only (mt : MatrixTable)
    (mapping mapping' : gmap string string) (intervals : list BedLine) :
  (mapping !! "GRCh38_region" = None →
   interval_qc_mt mt mapping intervals = raise (KeyError "GRCh38_region"))
  ∧ (mapping !! "GRCh38_region" = mapping' !! "GRCh38_region" →
     interval_qc_mt mt mapping intervals = interval_qc_mt mt mapping' intervals).
Proof.
  unfold interval_qc_mt, dict_get. split.
  - by intros ->.
  - by intros ->.
Qed.

Lemma interval_contains_bounds b l :
  interval_contains b l = true
  ↔ contig l = chrom b ∧ (chromStart b < position l ≤ chromEnd b)%Z.
Proof.
  unfold interval_contains. rewrite !andb_true_iff, !bool_decide_eq_true.
  intuition lia.
Qed.

(** X11: with [GRCh38_region] in the mapping: when no line of the file
    starts with [chr<region>] the import of the intervals raises
    [ValueError]; otherwise [interval_qc_mt] returns a table and keeps a
    row exactly when some line of the file that starts with
    [chr<region>] names the row's contig and has
    [chromStart < position <= chromEnd]: the 0-based start of a BED
    interval is outside it, its end is inside. *)
Theorem interval_qc_mt_retained_rows (mt : MatrixTable)
    (mapping : gmap string string) (intervals : list BedLine) (region : string) :
  mapping !! "GRCh38_region" = Some region →
  (¬ Exists (λ b, String.prefix ("chr" +:+ region) (bed_line_text b) = true)
       intervals →
   ∃ msg, interval_qc_mt mt mapping intervals = raise (ValueError msg))
  ∧ (Exists (λ b, String.prefix ("chr" +:+ region) (bed_line_text b) = true)
       intervals →
     ∃ out, interval_qc_mt mt mapping intervals = ok out
       ∧ ∀ r, r ∈ rows out
              ↔ r ∈ rows mt
                ∧ ∃ b, b ∈ intervals
                       ∧ String.prefix ("chr" +:+ region) (bed_line_text b) = true
                       ∧ contig (locus r) = chrom b
                       ∧ (chromStart b < position (locus r) ≤ chromEnd b)%Z).
Proof.
  intros Hreg. split.
  - intros Hno. unfold interval_qc_mt, dict_get. rewrite Hreg.
    cbn [mbind Result_bind ok]. rewrite import_bed_none by done. by eexists.
  - intros Hex.
    destruct (interval_qc_mt_rows mt mapping intervals region Hreg Hex)
      as (out & Hout & H).
    exists out. split; [done|]. intros r. rewrite H.
    split; intros [Hr (b & Hb & Hp & Hc)]; (split; [done|]); exists b;
      (split; [done|]); (split; [done|]); by apply interval_contains_bounds.
Qed.

(** The theorem at the chr10 fixture. *)
Lemma interval_qc_mt_retained_rows_witness :
  (¬ Exists (λ b, String.prefix ("chr" +:+ "1") (bed_line_text b) = true)
       bed_chr10 →
   ∃ msg, interval_qc_mt mt_chr10 mapping_chr1 bed_chr10 = raise (ValueError msg))
  ∧ (Exists (λ b, String.prefix ("chr" +:+ "1") (bed_line_text b) = true)
       bed_chr10 →
     ∃ out, interval_qc_mt mt_chr10 mapping_chr1 bed_chr10 = ok out
       ∧ ∀ r, r ∈ rows out
              ↔ r ∈ rows mt_chr10
                ∧ ∃ b, b ∈ bed_chr10
                       ∧ String.prefix ("chr" +:+ "1") (bed_line_text b) = true
                       ∧ contig (locus r) = chrom b
                       ∧ (chromStart b < position (locus r) ≤ chromEnd b)%Z).
Proof.
  apply (interval_qc_mt_retained_rows mt_chr10 mapping_chr1 bed_chr10 "1").
  vm_compute. reflexivity.
Defined.

(** X12: [interval_qc_mt] only removes rows: the rows of its result are a
    sublist of the input rows, schema and columns are unchanged, and a
    second application with the same mapping and file returns the same
    table. *)
Theorem interval_qc_mt_idempotent (mt out : MatrixTable)
    (mapping : gmap string string) (intervals : list BedLine) :
  interval_qc_mt mt mapping intervals = ok out →
  interval_qc_mt out mapping intervals = ok out
  ∧ sublist (rows out) (rows mt)
  ∧ cols out = cols mt ∧ row_fields out = row_fields mt.
Proof.
  unfold interval_qc_mt.
  destruct (dict_get mapping "GRCh38_region") as [e|region]; [done|].
  cbn [mbind Result_bind ok].
  destruct (import_bed intervals region) as [e|table]; [done|].
  cbn [mbind Result_bind ok]. intros [= <-]. split_and!; try done.
  - f_equal. unfold filter_rows, set_rows. cbn [row_fields cols rows].
    f_equal. rewrite list_filter_filter. apply list_filter_iff. tauto.
  - apply sublist_rows_filter_rows.
Qed.

(** The theorem at the chr10 fixture. *)
Lemma interval_qc_mt_idempotent_witness :
  interval_qc_mt mt_chr10 mapping_chr1 bed_chr10 = ok mt_chr10
  ∧ sublist (rows mt_chr10) (rows mt_chr10)
  ∧ cols mt_chr10 = cols mt_chr10 ∧ row_fields mt_chr10 = row_fields mt_chr10.
Proof.
  apply (interval_qc_mt_idempotent mt_chr10 mt_chr10 mapping_chr1 bed_chr10).
  vm_compute. reflexivity.
Defined.

Lemma filter_fmap_indep {A} (P : A → Prop) `{!∀ x, Decision (P x)} (g : A → A)
    (l : list A) :
  (∀ x, P (g x) ↔ P x) → filter P (g <$> l) = g <$> filter P l.
Proof.
  intros Hg. induction l as [|x l IH]; [done|]. cbn [fmap list_fmap].
  destruct (decide (P x)).
  - rewrite (filter_cons_True P (g x)) by (by apply Hg).
    rewrite (filter_cons_True P x) by done.
    rewrite fmap_cons. by f_equal.
  - rewrite (filter_cons_False P (g x)) by (by rewrite Hg).
    by rewrite (filter_cons_False P x).
Qed.

Lemma filter_rows_filter_cols pred k cpred keep mt :
  (∀ r es, pred (set_entries r es) = pred r) →
  filter_rows pred k (filter_cols cpred keep mt)
  = filter_cols cpred keep (filter_rows pred k mt).
Proof.
  intros Hp. unfold filter_rows, filter_cols, filter_cols_mask, set_rows.
  cbn [row_fields cols rows]. f_equal.
  apply filter_fmap_indep. intros r. by rewrite Hp.
Qed.

(** X13: the interval filter acts on rows and the sample filter on
    columns, and the two commute on tables: when each returns a table on
    the input, applying the other to that table returns the same table
    either way. *)
Theorem interval_qc_mt_hard_sample_filter_mt_commute (mt mt1 mt2 : MatrixTable)
    (samples_to_remove : list string) (mapping : gmap string string)
    (intervals : list BedLine) :
  hard_sample_filter_mt mt samples_to_remove = ok mt1 →
  interval_qc_mt mt mapping intervals = ok mt2 →
  ∃ out,
    interval_qc_mt mt1 mapping intervals = ok out
    ∧ hard_sample_filter_mt mt2 samples_to_remove = ok out.
Proof.
  rewrite !hard_sample_filter_mt_unfold.
  destruct (import_table_f0 samples_to_remove) as [e|ht]; [done|].
  cbn [fmap Result_fmap]. intros [= <-].
  unfold interval_qc_mt.
  destruct (dict_get mapping "GRCh38_region") as [e|region]; [done|].
  cbn [mbind Result_bind ok].
  destruct (import_bed intervals region) as [e|table]; [done|].
  cbn [mbind Result_bind ok]. intros [= <-].
  eexists. split; [reflexivity|]. f_equal.
  unfold filter_samples, anti_join_cols.
  by rewrite !filter_rows_filter_cols.
Qed.

(** The theorem at the three-sample fixture, whose row on chr1 lies
    outside the interval on chr10, with exclusion list S1. *)
Lemma interval_qc_mt_hard_sample_filter_mt_commute_witness :
  ∃ out,
    interval_qc_mt (filter_samples (listed_keys ["S1"]) mt_three_samples)
      mapping_chr1 bed_chr10 = ok out
    ∧ hard_sample_filter_mt (set_rows mt_three_samples []) ["S1"] = ok out.
Proof.
  apply (interval_qc_mt_hard_sample_filter_mt_commute mt_three_samples _
           (set_rows mt_three_samples []) ["S1"] mapping_chr1 bed_chr10).
  - reflexivity.
  - vm_compute. reflexivity.
Defined.

(** ** Further properties of the split *)

Lemma elem_of_add_field x f fs : x ∈ add_field f fs ↔ x = f ∨ x ∈ fs.
Proof.
  unfold add_field. case_decide as Hin.
  - split; [tauto|]. by intros [->|?].
  - rewrite elem_of_app, list_elem_of_singleton. tauto.
Qed.

Lemma add_field_absorb f fs : f ∈ fs → add_field f fs = fs.
Proof. intros H. unfold add_field. by rewrite decide_True. Qed.

Lemma split_schema_idemp fs : split_schema (split_schema fs) = split_schema fs.
Proof.
  unfold split_schema at 1.
  rewrite (add_field_absorb "a_index").
  - apply add_field_absorb. unfold split_schema. apply elem_of_add_field. by left.
  - unfold split_schema. apply elem_of_add_field. right.
    apply elem_of_add_field. by left.
Qed.

Lemma split_multi_hts_no_rows mt la :
  rows mt = [] →
  split_multi_hts mt la
  = ok {| row_fields := split_schema (row_fields mt); cols := cols mt; rows := [] |}.
Proof.
  intros Hr. unfold split_multi_hts. rewrite Hr. destruct la; [done|].
  by rewrite union_rows_same.
Qed.

(** X14: on a table whose rows all have exactly two alleles nothing is
    split, with or without [left_aligned]: the result is the input with
    [a_index = 1] and [was_split = false] on every row. *)
Theorem smart_split_multi_mt_biallelic_only (mt : MatrixTable) (left_aligned : bool) :
  Forall (λ r, length (alleles r) = 2) (rows mt) →
  smart_split_multi_mt mt left_aligned
  = ok {| row_fields := split_schema (row_fields mt); cols := cols mt;
          rows := set_a_index_was_split 1 false <$> rows mt |}.
Proof.
  intros Hall. unfold smart_split_multi_mt, key_rows_by_locus_alleles.
  rewrite split_multi_hts_no_rows.
  - cbn [mbind Result_bind ok]. rewrite union_rows_same by done.
    unfold set_rows. cbn [row_fields cols rows annotate_rows app]. do 3 f_equal.
    transitivity (biallelic (rows mt)); [apply (filter_rows_len_eq mt)|].
    by apply filter_all.
  - rewrite filter_rows_len_gt. apply filter_none.
    eapply Forall_impl; [exact Hall|]. cbn. lia.
Qed.

(** The theorem at a table with a single biallelic row. *)
Lemma smart_split_multi_mt_biallelic_only_witness :
  smart_split_multi_mt mt_chr10 true
  = ok {| row_fields := split_schema (row_fields mt_chr10); cols := cols mt_chr10;
          rows := set_a_index_was_split 1 false <$> rows mt_chr10 |}.
Proof.
  apply (smart_split_multi_mt_biallelic_only mt_chr10 true).
  apply (bool_decide_unpack _). vm_compute. exact I.
Defined.

Lemma smart_split_multi_mt_two_alleles mt la out :
  smart_split_multi_mt mt la = ok out →
  Forall (λ r, length (alleles r) = 2) (rows out).
Proof.
  intros Hout. apply smart_split_multi_mt_ok in Hout as (_ & _ & sp & -> & Hsp).
  apply Forall_app. split.
  - rewrite Hsp. apply Forall_forall. intros r' Hr'.
    by apply elem_of_split_rows in Hr' as (r0 & i & _ & _ & ->).
  - apply Forall_fmap, Forall_forall. intros r Hr.
    by apply list_elem_of_filter in Hr as [Hlen _].
Qed.

(** X15: [smart_split_multi_mt] is not idempotent on split tables: every
    row of its result has two alleles, so a second application splits
    nothing and overwrites the marks of every row, split or not, with
    [a_index = 1] and [was_split = false]. *)
Theorem smart_split_multi_mt_twice (mt out : MatrixTable) (la la' : bool) :
  smart_split_multi_mt mt la = ok out →
  smart_split_multi_mt out la'
  = ok {| row_fields := row_fields out; cols := cols out;
          rows := set_a_index_was_split 1 false <$> rows out |}.
Proof.
  intros Hout.
  rewrite (smart_split_multi_mt_biallelic_only out la')
    by (by eapply smart_split_multi_mt_two_alleles).
  apply smart_split_multi_mt_ok in Hout as (-> & _ & _).
  by rewrite split_schema_idemp.
Qed.

(** The theorem at the two-row fixture. *)
Lemma smart_split_multi_mt_twice_witness :
  ∃ out,
    smart_split_multi_mt mt_two_rows false = ok out
    ∧ smart_split_multi_mt out true
      = ok {| row_fields := row_fields out; cols := cols out;
              rows := set_a_index_was_split 1 false <$> rows out |}.
Proof.
  eexists. split; [reflexivity|].
  apply (smart_split_multi_mt_twice mt_two_rows _ false true). reflexivity.
Defined.

(** X16: with [left_aligned] set, [smart_split_multi_mt] returns a table
    exactly when no kept allele of a multi-allelic row moves its locus
    under minimal representation; otherwise it raises the engine's
    error.  Without [left_aligned] it always returns a table. *)
Theorem smart_split_multi_mt_left_aligned (mt : MatrixTable) :
  (left_aligned_rows mt → ∃ out, smart_split_multi_mt mt true = ok out)
  ∧ (¬ left_aligned_rows mt →
     smart_split_multi_mt mt true
     = raise (HailException "Found non-left-aligned variant in split_multi"))
  ∧ ∃ out, smart_split_multi_mt mt false = ok out.
Proof.
  split_and!.
  - intros H. by apply smart_split_multi_mt_total.
  - intros H. unfold smart_split_multi_mt, key_rows_by_locus_alleles, split_multi_hts.
    rewrite (mapM_Result_ext _ (λ r, if decide (Forall (stayed r) (kept_alleles r))
                            then ok (new_row r <$> kept_alleles r)
                            else raise (HailException
                              "Found non-left-aligned variant in split_multi")))
      by (intros r; apply mapM_guard).
    rewrite (mapM_guard (λ r, Forall (stayed r) (kept_alleles r))).
    rewrite decide_False; [done|].
    by rewrite filter_rows_len_gt.
  - by apply smart_split_multi_mt_total.
Qed.

Example smart_split_multi_mt_moved :
  smart_split_multi_mt mt_moved true
  = raise (HailException "Found non-left-aligned variant in split_multi")
  ∧ (λ out, (λ r, (position (locus r), alleles r, a_index r)) <$> rows out)
      <$> smart_split_multi_mt mt_moved false
    = ok [(100%Z, ["GCA"; "G"], Some 2%Z); (102%Z, ["A"; "T"], Some 1%Z)].
Proof. split; vm_compute; reflexivity. Qed.

Lemma length_split_rows rs :
  length (split_rows rs) = sum_list ((λ r, length (kept_alleles r)) <$> rs).
Proof.
  unfold split_rows. induction rs as [|r rs IH]; [done|].
  cbn. rewrite length_app, length_fmap. by rewrite IH.
Qed.

Lemma length_kept_alleles r : length (kept_alleles r) ≤ length (alleles r) - 1.
Proof.
  unfold kept_alleles. etrans; [apply length_filter|]. by rewrite length_seq.
Qed.

(** X17: a successful [smart_split_multi_mt] leaves the columns alone,
    adds [a_index] and [was_split] to the row schema, and returns one
    row per biallelic input row plus one row per kept alternate allele
    of each multi-allelic row. *)
Theorem smart_split_multi_mt_shape (mt out : MatrixTable) (left_aligned : bool) :
  smart_split_multi_mt mt left_aligned = ok out →
  cols out = cols mt
  ∧ row_fields out = split_schema (row_fields mt)
  ∧ "a_index" ∈ row_fields out ∧ "was_split" ∈ row_fields out
  ∧ length (rows out)
    = length (biallelic (rows mt))
      + sum_list ((λ r, length (kept_alleles r)) <$> multiallelic (rows mt)).
Proof.
  intros Hout. apply smart_split_multi_mt_ok in Hout as (Hf & Hc & sp & Hr & Hsp).
  split_and!; try done.
  - rewrite Hf. unfold split_schema. apply elem_of_add_field. right.
    apply elem_of_add_field. by left.
  - rewrite Hf. unfold split_schema. apply elem_of_add_field. by left.
  - rewrite Hr, length_app, length_fmap, Hsp, length_split_rows. lia.
Qed.

(** The theorem at the star-allele fixture. *)
Lemma smart_split_multi_mt_shape_witness :
  ∃ out,
    smart_split_multi_mt mt_star true = ok out
    ∧ cols out = cols mt_star
    ∧ row_fields out = split_schema (row_fields mt_star)
    ∧ "a_index" ∈ row_fields out ∧ "was_split" ∈ row_fields out
    ∧ length (rows out)
      = length (biallelic (rows mt_star))
        + sum_list ((λ r, length (kept_alleles r)) <$> multiallelic (rows mt_star)).
Proof.
  eexists. split; [reflexivity|].
  apply (smart_split_multi_mt_shape mt_star _ true). reflexivity.
Defined.

(** ** Further properties of the variant id *)

Lemma varid_expr_short r :
  length (alleles r) < 2 →
  varid_expr r = raise (HailException "array index out of bounds").
Proof.
  intros H. unfold varid_expr, array_index.
  destruct (alleles r) as [|a0 [|a1 rest]]; cbn in *; try done. lia.
Qed.

Lemma varid_expr_ok r :
  2 ≤ length (alleles r) → ∃ v, varid_expr r = ok v.
Proof.
  intros H. unfold varid_expr, array_index.
  destruct (alleles r) as [|a0 [|a1 rest]]; cbn in *; try lia. eauto.
Qed.

Lemma mapM_set_varid_short rs :
  Exists (λ r, length (alleles r) < 2) rs →
  mapM (λ r, set_varid r <$> varid_expr r) rs
  = raise (HailException "array index out of bounds").
Proof.
  induction rs as [|r rs IH]; intros H; [by apply Exists_nil in H|].
  cbn [mapM]. destruct (decide (length (alleles r) < 2)) as [Hs|Hs].
  - by rewrite varid_expr_short.
  - destruct (varid_expr_ok r) as [v ->]; [lia|].
    cbn [fmap Result_fmap mbind Result_bind ok].
    apply Exists_cons in H as [H|H]; [done|]. by rewrite IH.
Qed.

(** X18: [add_varid] raises exactly when some row has fewer than two
    alleles, and then with the engine's index error; otherwise it
    returns a table with the columns of the input and [varid] in the
    row schema. *)
Theorem add_varid_raises_iff (mt : MatrixTable) :
  (add_varid mt = raise (HailException "array index out of bounds")
   ↔ Exists (λ r, length (alleles r) < 2) (rows mt))
  ∧ ((∃ out, add_varid mt = ok out ∧ cols out = cols mt
             ∧ "varid" ∈ row_fields out
             ∧ length (rows out) = length (rows mt))
     ↔ Forall (λ r, 2 ≤ length (alleles r)) (rows mt)).
Proof.
  assert (Exists (λ r, length (alleles r) < 2) (rows mt) →
          add_varid mt = raise (HailException "array index out of bounds")) as Hraise.
  { intros H. unfold add_varid. by rewrite mapM_set_varid_short. }
  assert (Forall (λ r, 2 ≤ length (alleles r)) (rows mt) →
          ∃ out, add_varid mt = ok out ∧ cols out = cols mt
                 ∧ "varid" ∈ row_fields out
                 ∧ length (rows out) = length (rows mt)) as Hok.
  { intros H. destruct (mapM_set_varid_total _ H) as (rs' & Hrs' & HF).
    unfold add_varid. rewrite Hrs'. eexists. split; [reflexivity|].
    split_and!; [done| |].
    - apply elem_of_add_field. by left.
    - symmetry. by eapply Forall2_length. }
  destruct (decide (Exists (λ r, length (alleles r) < 2) (rows mt))) as [He|He].
  - split; [split; [done | by intros _; apply Hraise]|]. split.
    + intros (out & Hout & _). rewrite (Hraise He) in Hout. done.
    + intros Hall. exfalso. apply Exists_exists in He as (r & Hr & Hlt).
      rewrite Forall_forall in Hall. specialize (Hall r Hr). lia.
  - assert (Forall (λ r, 2 ≤ length (alleles r)) (rows mt)) as Hall.
    { apply Forall_forall. intros r Hr.
      destruct (decide (2 ≤ length (alleles r))); [done|].
      exfalso. apply He, Exists_exists. exists r. split; [done|lia]. }
    split; [split; [|done] | split; [done | auto]].
    intros Hr. destruct (Hok Hall) as (out & Hout & _).
    rewrite Hr in Hout. done.
Qed.

(** X19: [add_varid] never raises on the result of [smart_split_multi_mt]
    (every row there has two alleles), and every row of its result
    carries a variant id. *)
Theorem add_varid_after_smart_split_multi_mt (mt out : MatrixTable) (la : bool) :
  smart_split_multi_mt mt la = ok out →
  ∃ out', add_varid out = ok out'
    ∧ Forall (λ r, ∃ ref alt, alleles r = [ref; alt]
                 ∧ varid r = Some (colon_joined r ref alt)) (rows out').
Proof.
  intros Hout. pose proof (smart_split_multi_mt_two_alleles _ _ _ Hout) as H2.
  destruct (mapM_set_varid_total (rows out)) as (rs' & Hrs' & HF).
  { eapply Forall_impl; [exact H2|]. cbn. lia. }
  unfold add_varid. rewrite Hrs'. eexists. split; [reflexivity|].
  cbn [rows]. clear Hrs'. induction HF as [|r r' rs rs' Hr HF IH].
  - constructor.
  - apply Forall_cons in H2 as [Hlen H2]. constructor; [|by apply IH].
    destruct Hr as (ref & alt & rest & Hal & ->).
    rewrite Hal in Hlen. destruct rest; [|done].
    exists ref, alt. split; [done|done].
Qed.

(** The theorem at a table with a single biallelic row. *)
Lemma add_varid_after_smart_split_multi_mt_witness :
  ∃ out', add_varid {| row_fields := split_schema (row_fields mt_chr10);
                       cols := cols mt_chr10;
                       rows := set_a_index_was_split 1 false <$> rows mt_chr10 |}
          = ok out'
    ∧ Forall (λ r, ∃ ref alt, alleles r = [ref; alt]
                 ∧ varid r = Some (colon_joined r ref alt)) (rows out').
Proof.
  apply (add_varid_after_smart_split_multi_mt mt_chr10 _ false).
  vm_compute. reflexivity.
Defined.

(** ** The shape of a table along the pipeline *)

Lemma filter_rows_aligned pred keep mt : aligned mt → aligned (filter_rows pred keep mt).
Proof.
  unfold aligned. cbn. intros H. apply Forall_forall. intros r Hr.
  apply list_elem_of_filter in Hr as [_ Hr].
  rewrite Forall_forall in H. by apply H.
Qed.

Lemma filter_entries_aligned pred keep mt :
  aligned mt → aligned (filter_entries pred keep mt).
Proof.
  unfold aligned. cbn. intros H. apply Forall_fmap.
  eapply Forall_impl; [exact H|]. intros r Hr. cbn. by rewrite length_fmap.
Qed.

Lemma compute_entry_filter_stats_aligned mt :
  aligned mt → aligned (compute_entry_filter_stats mt).
Proof.
  unfold aligned. cbn. intros H. apply Forall_fmap.
  eapply Forall_impl; [exact H|]. intros r Hr. cbn. by rewrite length_imap.
Qed.

Lemma mapM_set_varid_inv rs rs' :
  mapM (λ r, set_varid r <$> varid_expr r) rs = ok rs' →
  Forall2 (λ r r', ∃ v, r' = set_varid r v) rs rs'.
Proof.
  revert rs'. induction rs as [|r rs IH]; intros rs'.
  - intros [= <-]. constructor.
  - cbn [mapM]. destruct (varid_expr r) as [e|v]; [done|].
    cbn [fmap Result_fmap mbind Result_bind].
    destruct (mapM _ rs) as [e|k]; [done|]. intros [= <-].
    constructor; [by exists v | by apply IH].
Qed.

Lemma smart_split_multi_mt_aligned mt la out :
  aligned mt → smart_split_multi_mt mt la = ok out → aligned out.
Proof.
  unfold aligned. intros H Hout.
  apply smart_split_multi_mt_ok in Hout as (_ & -> & sp & -> & Hsp).
  rewrite Forall_forall in H. apply Forall_app. split.
  - rewrite Hsp. apply Forall_forall. intros r' Hr'.
    apply elem_of_split_rows in Hr' as (r & i & Hr & _ & ->).
    apply list_elem_of_filter in Hr as [_ Hr]. cbn. rewrite length_fmap. by apply H.
  - apply Forall_fmap, Forall_forall. intros r Hr.
    apply list_elem_of_filter in Hr as [_ Hr]. cbn. by apply H.
Qed.

Lemma add_varid_aligned mt out : aligned mt → add_varid mt = ok out → aligned out.
Proof.
  unfold aligned, add_varid. intros H.
  destruct (mapM _ (rows mt)) as [e|rs] eqn:Hrs; [done|]. intros [= <-]. cbn.
  apply mapM_set_varid_inv in Hrs.
  induction Hrs as [|r r' rs rs' [v ->] _ IH]; [constructor|].
  apply Forall_cons in H as [Hr H]. constructor; [done | by apply IH].
Qed.

Lemma hard_variant_filter_mt_aligned mt p g out :
  aligned mt → (hard_variant_filter_mt mt p g).2 = ok out → aligned out.
Proof.
  intros Hal. unfold hard_variant_filter_mt. cbn [snd].
  destruct (decide ("variant_qc" ∈ row_fields mt)) as [Hin|Hin].
  - destruct p as [p|], g as [g|]; cbn [mbind Result_bind ok];
      rewrite ?getattr_present by done; cbn [mbind Result_bind ok];
      rewrite ?getattr_present by done; cbn [mbind Result_bind ok];
      intros [= <-]; repeat apply filter_rows_aligned; done.
  - destruct p as [p|], g as [g|]; cbn [mbind Result_bind ok];
      rewrite ?getattr_missing by done; try done.
    by intros [= <-].
Qed.

(** X20: every stage keeps the shape of the table: if each row of the
    input has one entry slot per column, so has each row of whatever the
    stage returns. *)
Theorem pipeline_keeps_alignment (mt : MatrixTable) :
  aligned mt →
  (∀ (Env : Type) next_seed rand_bool prob seed (env env' : Env) out,
     downsample_mt Env next_seed rand_bool mt prob seed env = (env', ok out) →
     aligned out)
  ∧ (∀ mapping intervals out,
       interval_qc_mt mt mapping intervals = ok out → aligned out)
  ∧ (∀ samples_to_remove out,
       hard_sample_filter_mt mt samples_to_remove = ok out → aligned out)
  ∧ (∀ left_aligned out,
       smart_split_multi_mt mt left_aligned = ok out → aligned out)
  ∧ (∀ min_p_value_hwe min_GQ out,
       (hard_variant_filter_mt mt min_p_value_hwe min_GQ).2 = ok out → aligned out)
  ∧ (∀ min_DP min_GQ log_entries_filtered out,
       genotype_filter_mt mt min_DP min_GQ log_entries_filtered = ok out →
       aligned out)
  ∧ (∀ out, (filter_no_carriers mt).2 = ok out → aligned out)
  ∧ (∀ out, add_varid mt = ok out → aligned out).
Proof.
  intros Hal. split_and!.
  - intros Env next_seed rand_bool prob seed env env' out.
    unfold downsample_mt, sample_cols. destruct prob as [p|]; [|by intros [= _ <-]].
    destruct (negb _); [done|].
    destruct (match seed with Some z => (z, env) | None => next_seed env end)
      as [sd e']. intros [= _ <-].
    apply filter_cols_mask_aligned; [|done]. by rewrite length_imap.
  - intros mapping intervals out. unfold interval_qc_mt.
    destruct (dict_get _ _) as [e|region]; [done|]. cbn [mbind Result_bind ok].
    destruct (import_bed _ _) as [e|table]; [done|]. intros [= <-].
    by apply filter_rows_aligned.
  - intros l out. rewrite hard_sample_filter_mt_unfold.
    destruct (import_table_f0 l) as [e|ht]; [done|]. intros [= <-].
    by apply filter_samples_aligned.
  - intros la out. by apply smart_split_multi_mt_aligned.
  - intros p g out. by apply hard_variant_filter_mt_aligned.
  - intros d g log out. unfold genotype_filter_mt.
    destruct (py_floordiv d 2) as [e|half]; [done|].
    destruct (hl.to_expr g) as [e|gq]; [done|].
    destruct (hl.to_expr d) as [e|dp]; [done|].
    cbn [mbind Result_bind ok]. intros [= <-].
    destruct log; [apply compute_entry_filter_stats_aligned|];
      by apply filter_entries_aligned.
  - intros out. unfold filter_no_carriers. cbn [snd].
    destruct (getattr mt "variant_qc") as [e|[]]; [done|]. intros [= <-].
    by apply filter_rows_aligned.
  - intros out. by apply add_varid_aligned.
Qed.

(** The theorem at the two-row fixture. *)
Lemma pipeline_keeps_alignment_witness :
  (∀ (Env : Type) next_seed rand_bool prob seed (env env' : Env) out,
     downsample_mt Env next_seed rand_bool mt_two_rows prob seed env = (env', ok out) →
     aligned out)
  ∧ (∀ mapping intervals out,
       interval_qc_mt mt_two_rows mapping intervals = ok out → aligned out)
  ∧ (∀ samples_to_remove out,
       hard_sample_filter_mt mt_two_rows samples_to_remove = ok out → aligned out)
  ∧ (∀ left_aligned out,
       smart_split_multi_mt mt_two_rows left_aligned = ok out → aligned out)
  ∧ (∀ min_p_value_hwe min_GQ out,
       (hard_variant_filter_mt mt_two_rows min_p_value_hwe min_GQ).2 = ok out →
       aligned out)
  ∧ (∀ min_DP min_GQ log_entries_filtered out,
       genotype_filter_mt mt_two_rows min_DP min_GQ log_entries_filtered = ok out →
       aligned out)
  ∧ (∀ out, (filter_no_carriers mt_two_rows).2 = ok out → aligned out)
  ∧ (∀ out, add_varid mt_two_rows = ok out → aligned out).
Proof.
  apply (pipeline_keeps_alignment mt_two_rows).
  apply (bool_decide_unpack _). vm_compute. exact I.
Defined.

(** ** Further properties of the downsampling *)

Lemma sublist_select {A} (m : list bool) (xs : list A) : sublist (select m xs) xs.
Proof.
  revert xs. induction m as [|b m IH]; intros [|x xs]; cbn [select];
    try apply sublist_nil_l.
  destruct b; [by apply sublist_skip | by apply sublist_cons].
Qed.

(** X21: a probability outside [0,1] makes [downsample_mt] raise
    [ValueError], with or without a seed, before any seed is drawn from
    the engine. *)
Theorem downsample_mt_out_of_range (Env : Type) (next_seed : Env → Z * Env)
    (rand_bool : Q → Z → nat → bool) (mt : MatrixTable) (prob : Q)
    (seed : option Z) (env : Env) :
  ¬ (0 <= prob ∧ prob <= 1)%Q →
  downsample_mt Env next_seed rand_bool mt (Some prob) seed env
  = (env, raise (ValueError "Requires 'p' in [0,1]")).
Proof.
  intros H. unfold downsample_mt, sample_cols.
  destruct (Qle_bool 0 prob && Qle_bool prob 1) eqn:E; [|done].
  exfalso. apply H. apply andb_true_iff in E as [E1 E2].
  by rewrite <- !Qle_bool_iff.
Qed.

(** The theorem at probability 3/2, with a unit engine state. *)
Lemma downsample_mt_out_of_range_witness :
  downsample_mt unit (λ e, (0%Z, e)) (λ _ _ _, true) mt_two_rows
    (Some (3 # 2)%Q) None tt
  = (tt, raise (ValueError "Requires 'p' in [0,1]")).
Proof.
  apply (downsample_mt_out_of_range unit (λ e, (0%Z, e)) (λ _ _ _, true)
           mt_two_rows (3 # 2)%Q None tt).
  intros [_ H]. vm_compute in H. apply H. reflexivity.
Defined.

(** X22: [downsample_mt] only removes samples: the columns of its result
    are a sublist of the input columns, the rows keep their key and
    annotations in the same order, the schema is unchanged, and with a
    seed given the engine state is left as it was. *)
Theorem downsample_mt_only_removes_samples (Env : Type) (next_seed : Env → Z * Env)
    (rand_bool : Q → Z → nat → bool) (mt out : MatrixTable) (prob : option Q)
    (seed : option Z) (env env' : Env) :
  downsample_mt Env next_seed rand_bool mt prob seed env = (env', ok out) →
  sublist (cols out) (cols mt)
  ∧ row_header <$> rows out = row_header <$> rows mt
  ∧ row_fields out = row_fields mt
  ∧ (is_Some seed → env' = env).
Proof.
  unfold downsample_mt, sample_cols. destruct prob as [p|]; [|by intros [= <- <-]].
  destruct (negb _); [done|].
  destruct seed as [z|].
  - intros [= <- <-]. split_and!; try done;
      [apply sublist_select | apply row_header_filter_cols_mask].
  - destruct (next_seed env) as [sd e']. intros [= <- <-].
    split_and!; [apply sublist_select | apply row_header_filter_cols_mask
                | done | by intros [? [=]]].
Qed.

(** The theorem at the two-row fixture, with an engine that keeps the
    columns at even indices. *)
Lemma downsample_mt_only_removes_samples_witness :
  ∃ out,
    downsample_mt unit (λ e, (0%Z, e)) (λ _ _ j, Nat.even j) mt_two_rows
      (Some (1 # 2)%Q) (Some 42%Z) tt = (tt, ok out)
    ∧ sublist (cols out) (cols mt_two_rows)
    ∧ row_header <$> rows out = row_header <$> rows mt_two_rows
    ∧ row_fields out = row_fields mt_two_rows
    ∧ (is_Some (Some 42%Z) → tt = tt).
Proof.
  eexists. split; [reflexivity|].
  apply (downsample_mt_only_removes_samples unit (λ e, (0%Z, e))
           (λ _ _ j, Nat.even j) mt_two_rows _ (Some (1 # 2)%Q) (Some 42%Z) tt tt).
  reflexivity.
Defined.

(** ** Import *)

Lemma forallb_Forall {A} (f : A → bool) (l : list A) :
  forallb f l = true ↔ Forall (λ x, f x = true) l.
Proof.
  induction l as [|x l IH]; cbn; [split; [constructor | done]|].
  rewrite andb_true_iff, IH, Forall_cons. done.
Qed.

Lemma union_rows_all_ok (order_by_key : list Row → list Row) ds out :
  union_rows_all order_by_key ds = ok out →
  ∃ first rest,
    ds = first :: rest
    ∧ row_fields out = row_fields first ∧ cols out = cols first
    ∧ (rest = [] → out = first)
    ∧ (rest ≠ [] →
       rows out = order_by_key (concat (rows <$> ds))
       ∧ Forall (λ d, row_fields d = row_fields first
                      ∧ s <$> cols d = s <$> cols first) rest).
Proof.
  destruct ds as [|first [|d rest]]; [done| |].
  - intros [= <-]. exists first, []. split_and!; done.
  - unfold union_rows_all.
    destruct (forallb (λ d0, bool_decide (row_fields first = row_fields d0)) (d :: rest))
      eqn:E1; [|done].
    destruct (forallb (λ d0, bool_decide (s <$> cols first = s <$> cols d0)) (d :: rest))
      eqn:E2; [|done].
    cbn [negb]. intros [= <-]. exists first, (d :: rest). split_and!; try done.
    intros _. split; [done|].
    apply forallb_Forall in E1. apply forallb_Forall in E2.
    apply Forall_forall. intros x Hx.
    rewrite Forall_forall in E1. rewrite Forall_forall in E2.
    specialize (E1 x Hx). specialize (E2 x Hx).
    apply bool_decide_eq_true in E1. apply bool_decide_eq_true in E2. done.
Qed.

(** X23: [import_mt] reads the three keys of the mapping before it calls
    the engine, in the order region, start, end: the first of them that
    is missing is the [KeyError] raised, whatever the files are. *)
Theorem import_mt_missing_key (Interval : Type)
    (parse_locus_interval : string → Result Interval)
    (import_gvcfs : list string → list Interval → Result (list MatrixTable))
    (order_by_key : list Row → list Row)
    (vcf_files : list string) (mapping : gmap string string) :
  (mapping !! "GRCh38_region" = None →
   import_mt Interval parse_locus_interval import_gvcfs order_by_key vcf_files mapping
   = raise (KeyError "GRCh38_region"))
  ∧ (is_Some (mapping !! "GRCh38_region") → mapping !! "GRCh38_start" = None →
     import_mt Interval parse_locus_interval import_gvcfs order_by_key vcf_files mapping
     = raise (KeyError "GRCh38_start"))
  ∧ (is_Some (mapping !! "GRCh38_region") → is_Some (mapping !! "GRCh38_start") →
     mapping !! "GRCh38_end" = None →
     import_mt Interval parse_locus_interval import_gvcfs order_by_key vcf_files mapping
     = raise (KeyError "GRCh38_end")).
Proof.
  unfold import_mt, dict_get. split_and!.
  - by intros ->.
  - by intros [r ->] ->.
  - by intros [r ->] [st ->] ->.
Qed.

(** X24: when [import_mt] returns a table, the mapping has the three
    keys, the engine parsed the text [[chrR:S-chrR:E]] made of them and
    returned at least one table for the files; the result has the schema
    and the columns of the first table.  When the engine returned one
    table the result is that table; when it returned several, the rows
    of the result are the rows of all of them in the order the engine
    gives a union (by row key), and every further table had the row
    schema and the sample ids of the first.  If that order only permutes
    the rows it is given, the rows of the result are, up to their order,
    the rows of all the tables. *)
Theorem import_mt_ok (Interval : Type)
    (parse_locus_interval : string → Result Interval)
    (import_gvcfs : list string → list Interval → Result (list MatrixTable))
    (order_by_key : list Row → list Row)
    (vcf_files : list string) (mapping : gmap string string) (out : MatrixTable) :
  import_mt Interval parse_locus_interval import_gvcfs order_by_key vcf_files mapping
  = ok out →
  ∃ region start end_ iv first rest,
    mapping !! "GRCh38_region" = Some region
    ∧ mapping !! "GRCh38_start" = Some start
    ∧ mapping !! "GRCh38_end" = Some end_
    ∧ parse_locus_interval
        ("[chr" +:+ region +:+ ":" +:+ start +:+ "-chr" +:+ region +:+ ":"
         +:+ end_ +:+ "]") = ok iv
    ∧ import_gvcfs vcf_files [iv] = ok (first :: rest)
    ∧ cols out = cols first ∧ row_fields out = row_fields first
    ∧ (rest = [] → out = first)
    ∧ (rest ≠ [] →
       rows out = order_by_key (concat (rows <$> first :: rest))
       ∧ Forall (λ d, row_fields d = row_fields first
                      ∧ s <$> cols d = s <$> cols first) rest)
    ∧ ((∀ l, order_by_key l ≡ₚ l) → rows out ≡ₚ concat (rows <$> first :: rest)).
Proof.
  unfold import_mt, dict_get.
  destruct (mapping !! "GRCh38_region") as [region|]; [|done].
  destruct (mapping !! "GRCh38_start") as [start|]; [|done].
  destruct (mapping !! "GRCh38_end") as [end_|]; [|done].
  cbn [mbind Result_bind ok].
  destruct (parse_locus_interval _) as [e|iv] eqn:Hiv; [done|].
  cbn [mbind Result_bind].
  destruct (import_gvcfs vcf_files [iv]) as [e|mts] eqn:Hmts; [done|].
  cbn [mbind Result_bind]. case_bool_decide as Hlen.
  - destruct mts as [|first [|? ?]]; try done. intros [= <-].
    exists region, start, end_, iv, first, []. split_and!; try done.
    intros _. cbn. by rewrite app_nil_r.
  - intros Hu. apply union_rows_all_ok in Hu
      as (first & rest & -> & Hf & Hc & Hone & Hall).
    exists region, start, end_, iv, first, rest. split_and!; try done.
    intros Hperm. destruct rest as [|d rest].
    + rewrite (Hone eq_refl). cbn. by rewrite app_nil_r.
    + destruct Hall as [-> _]; [done|]. apply Hperm.
Qed.

(** The theorem with an engine that returns the two-row fixture for each
    of two files and gives the rows of a union in reverse. *)
Lemma import_mt_ok_witness :
  ∃ region start end_ iv first rest,
    mapping_chr1 !! "GRCh38_region" = Some region
    ∧ mapping_chr1 !! "GRCh38_start" = Some start
    ∧ mapping_chr1 !! "GRCh38_end" = Some end_
    ∧ ok ("[chr" +:+ region +:+ ":" +:+ start +:+ "-chr" +:+ region +:+ ":"
          +:+ end_ +:+ "]") = ok iv
    ∧ ok ((λ _ : string, mt_two_rows) <$> ["a.g.vcf"; "b.g.vcf"]) = ok (first :: rest)
    ∧ cols (set_rows mt_two_rows (reverse (rows mt_two_rows ++ rows mt_two_rows)))
      = cols first
    ∧ row_fields (set_rows mt_two_rows (reverse (rows mt_two_rows ++ rows mt_two_rows)))
      = row_fields first
    ∧ (rest = [] →
       set_rows mt_two_rows (reverse (rows mt_two_rows ++ rows mt_two_rows)) = first)
    ∧ (rest ≠ [] →
       rows (set_rows mt_two_rows (reverse (rows mt_two_rows ++ rows mt_two_rows)))
       = reverse (concat (rows <$> first :: rest))
       ∧ Forall (λ d, row_fields d = row_fields first
                      ∧ s <$> cols d = s <$> cols first) rest)
    ∧ ((∀ l : list Row, reverse l ≡ₚ l) →
       rows (set_rows mt_two_rows (reverse (rows mt_two_rows ++ rows mt_two_rows)))
       ≡ₚ concat (rows <$> first :: rest)).
Proof.
  apply (import_mt_ok string (λ t, ok t)
           (λ files _, ok ((λ _ : string, mt_two_rows) <$> files)) reverse
           ["a.g.vcf"; "b.g.vcf"] mapping_chr1
           (set_rows mt_two_rows (reverse (rows mt_two_rows ++ rows mt_two_rows)))).
  vm_compute. reflexivity.
Defined.

Example import_mt_region_text :
  import_mt string (λ t, ok t) (λ _ ivs, raise (HailException (default "" (head ivs))))
    (λ l, l) ["a.g.vcf"] mapping_chr1
  = raise (HailException "[chr1:1000-chr1:2000]").
Proof. vm_compute. reflexivity. Qed.

Example import_mt_no_file :
  import_mt string (λ t, ok t) (λ _ _, ok []) (λ l, l) [] mapping_chr1
  = raise (ValueError "Expected at least one argument").
Proof. vm_compute. reflexivity. Qed.

(** ** The phenotype notebook *)

Lemma append_cons (c : ascii) (a b : string) : String c a +:+ b = String c (a +:+ b).
Proof. reflexivity. Qed.

Lemma append_nil_l (b : string) : "" +:+ b = b.
Proof. reflexivity. Qed.

Lemma append_assoc (a b c : string) : (a +:+ b) +:+ c = a +:+ (b +:+ c).
Proof.
  induction a as [|x a IH]; [done|]. rewrite !append_cons. by rewrite IH.
Qed.

Lemma chars_append (a b : string) :
  list_ascii_of_string (a +:+ b) = list_ascii_of_string a ++ list_ascii_of_string b.
Proof.
  induction a as [|x a IH]; [done|]. rewrite append_cons. cbn. by rewrite IH.
Qed.

Lemma py_replace_cons old new c (x : string) :
  py_replace old new (String c x)
  = if decide (c = old) then new +:+ py_replace old new x
    else String c (py_replace old new x).
Proof. reflexivity. Qed.

Lemma py_replace_append old new (a b : string) :
  py_replace old new (a +:+ b) = py_replace old new a +:+ py_replace old new b.
Proof.
  induction a as [|x a IH]; [done|]. rewrite append_cons, !py_replace_cons.
  destruct (decide (x = old)); rewrite IH; [by rewrite append_assoc | done].
Qed.

Lemma py_replace_absent old new (x : string) :
  old ∉ list_ascii_of_string x → py_replace old new x = x.
Proof.
  induction x as [|c x IH]; [done|]. rewrite py_replace_cons. cbn. intros H.
  apply not_elem_of_cons in H as [Hc Hx].
  rewrite decide_False by done. by rewrite IH.
Qed.

Lemma py_replace_removes old new (x : string) :
  old ∉ list_ascii_of_string new →
  old ∉ list_ascii_of_string (py_replace old new x).
Proof.
  intros Hnew. induction x as [|c x IH]; [apply not_elem_of_nil|].
  rewrite py_replace_cons. destruct (decide (c = old)).
  - rewrite chars_append. by apply not_elem_of_app.
  - cbn. by apply not_elem_of_cons.
Qed.

Lemma py_replace_delete_subset old (x : string) c :
  c ∈ list_ascii_of_string (py_replace old "" x) → c ∈ list_ascii_of_string x.
Proof.
  induction x as [|c' x IH]; [done|]. rewrite py_replace_cons.
  destruct (decide (c' = old)).
  - rewrite append_nil_l. intros H. apply elem_of_cons. right. by apply IH.
  - cbn. rewrite !elem_of_cons. intros [->|H]; [by left | right; by apply IH].
Qed.

Lemma search_cons c (rest : string) :
  search_underscore_digit_end (String c rest)
  = (bool_decide (c = "_"%char)
     && match rest with
        | String d rest' => is_digit d && at_end rest'
        | EmptyString => false
        end)
    || search_underscore_digit_end rest.
Proof. reflexivity. Qed.

Lemma search_suffix (y : string) (d : ascii) :
  is_digit d = true →
  search_underscore_digit_end (y +:+ String "_" (String d "")) = true.
Proof.
  intros Hd. induction y as [|c y IH].
  - rewrite append_nil_l, search_cons. cbn. by rewrite Hd.
  - rewrite append_cons, search_cons, IH. apply orb_true_r.
Qed.

Lemma is_digit_not (c : ascii) :
  is_digit c = true → c ≠ "p"%char ∧ c ≠ "i"%char ∧ c ≠ "_"%char.
Proof. intros H. split_and!; intros ->; done. Qed.

Lemma digits_no_search (f : string) :
  all_digits f → search_underscore_digit_end f = false.
Proof.
  unfold all_digits. induction f as [|c f IH]; [done|]. cbn [list_ascii_of_string].
  intros H. apply Forall_cons in H as [Hc Hf].
  rewrite search_cons, (IH Hf). apply is_digit_not in Hc as (_ & _ & Hc).
  by rewrite bool_decide_eq_false_2.
Qed.

Lemma digits_absent (f : string) (c : ascii) :
  all_digits f → is_digit c = false → c ∉ list_ascii_of_string f.
Proof.
  unfold all_digits. intros H Hc Hin.
  rewrite Forall_forall in H. specialize (H c Hin). congruence.
Qed.

(** X25: whatever the column name, [new_names] returns a name that ends
    with [_0], contains neither [p] nor [i], and matches the pattern the
    function tests for. *)
Theorem new_names_shape (x : string) :
  (∃ body, new_names x = body +:+ "_0")
  ∧ ("p"%char ∉ list_ascii_of_string (new_names x))
  ∧ ("i"%char ∉ list_ascii_of_string (new_names x))
  ∧ search_underscore_digit_end (new_names x) = true.
Proof.
  unfold new_names.
  set (y := py_replace "i" "" (py_replace "p" "x" x)).
  assert ("i"%char ∉ list_ascii_of_string y) as Hi.
  { apply py_replace_removes. apply not_elem_of_nil. }
  assert ("p"%char ∉ list_ascii_of_string y) as Hp.
  { intros H. apply py_replace_delete_subset in H. revert H.
    apply py_replace_removes. cbn. rewrite list_elem_of_singleton. done. }
  assert (∀ t : string, t = "_0" ∨ t = "_0_0" →
            ("p"%char ∉ list_ascii_of_string (y +:+ t))
            ∧ ("i"%char ∉ list_ascii_of_string (y +:+ t))) as Hchars.
  { intros t Ht. rewrite chars_append. split; apply not_elem_of_app;
      (split; [done|]); destruct Ht as [-> | ->]; cbn;
      rewrite ?elem_of_cons, elem_of_nil; intuition discriminate. }
  destruct (search_underscore_digit_end y).
  - split_and!; [by exists y | by apply Hchars; left | by apply Hchars; left |].
    by apply (search_suffix y "0").
  - split_and!; [exists (y +:+ "_0"); by rewrite append_assoc
                | by apply Hchars; right | by apply Hchars; right |].
    change "_0_0" with ("_0" +:+ "_0"). rewrite <- append_assoc.
    by apply (search_suffix (y +:+ "_0") "0").
Qed.

(** X26: a field column [p<digits>] becomes [x<digits>_0_0], and an
    instance column [p<digits>_i<digit>] becomes [x<digits>_<digit>_0]:
    the instance number is kept and a single array index is added. *)
Theorem new_names_field_columns (f : string) (d : ascii) :
  all_digits f →
  new_names ("p" +:+ f) = "x" +:+ f +:+ "_0_0"
  ∧ (is_digit d = true →
     new_names ("p" +:+ f +:+ "_i" +:+ String d "")
     = "x" +:+ f +:+ "_" +:+ String d "" +:+ "_0").
Proof.
  intros Hf.
  assert (py_replace "p" "x" f = f) as Hpf
    by (by apply py_replace_absent, digits_absent).
  assert (py_replace "i" "" f = f) as Hif
    by (by apply py_replace_absent, digits_absent).
  split.
  - unfold new_names.
    rewrite !py_replace_append, Hpf, Hif.
    change (py_replace "p" "x" "p") with "x".
    change (py_replace "i" "" "x") with "x".
    change ("x" +:+ f) with (String "x" f).
    rewrite search_cons, digits_no_search by done.
    rewrite bool_decide_eq_false_2 by done. cbn [andb orb].
    by rewrite append_cons.
  - intros Hd. pose proof (is_digit_not d Hd) as (Hdp & Hdi & _).
    unfold new_names.
    rewrite !py_replace_append, Hpf, Hif.
    change (py_replace "p" "x" "p") with "x".
    change (py_replace "i" "" "x") with "x".
    change (py_replace "p" "x" "_i") with "_i".
    change (py_replace "i" "" "_i") with "_".
    rewrite (py_replace_absent "p" "x" (String d ""))
      by (cbn; rewrite list_elem_of_singleton; congruence).
    rewrite (py_replace_absent "i" "" (String d ""))
      by (cbn; rewrite list_elem_of_singleton; congruence).
    change ("x" +:+ f +:+ "_" +:+ String d "")
      with (String "x" f +:+ String "_" (String d "")).
    rewrite search_suffix by done.
    by rewrite !append_assoc.
Qed.

(** The theorem at field 2443, instance 0. *)
Lemma new_names_field_columns_witness :
  new_names ("p" +:+ "2443") = "x" +:+ "2443" +:+ "_0_0"
  ∧ (is_digit "0" = true →
     new_names ("p" +:+ "2443" +:+ "_i" +:+ String "0" "")
     = "x" +:+ "2443" +:+ "_" +:+ String "0" "" +:+ "_0").
Proof.
  apply (new_names_field_columns "2443" "0").
  unfold all_digits. apply (bool_decide_unpack _). vm_compute. exact I.
Defined.
